(** * HYPED 2018 pod firmware: sensor aggregator, navigation constants and
      motor-control loop, embedded in Rocq.

    Sources embedded here:
    - [BeagleBone_black/src/sensors/main.cpp]   (hyped::sensors::Main)
    - [BeagleBone_black/src/sensors/fake_batteries.cpp]
    - [BeagleBone_black/src/navigation/navigation.hpp]
    - motor_control/main.cpp                    (hyped::motor_control::Main)

    Integers of fixed width are carried as [Z] (or [N] for timestamps) with
    the wrap-around written out where the code does arithmetic on them.
    Calls that leave an object (registry, CAN communicator, barrier, logger)
    are recorded as events; what they answer comes from an environment that
    is quantified over.  Loops that need not end take a bound on their
    number of turns and report when they hit it.

    Layout: the embedding, then the vocabulary of the statements and the
    concrete inputs of the examples, then the proofs. *)

From Stdlib Require Import ZArith NArith QArith Qabs List Sorted Bool String Lia Lqa.
Import ListNotations.

Local Open Scope Z_scope.

(* ====================================================================== *)
(** * Shared data structures ([data/data.hpp]) *)
(* ====================================================================== *)

Module Data.

(** Modelled from the spec: the revision of data.hpp among the sources
    predates the members that sensors/main.cpp reads
    ([imu[i].acc.timestamp], [proxi_front.timestamp],
    [proxi_back.timestamp], [low_power_batteries[i].voltage] and
    [.temperature]); it has [kNumImus = 8] and [kNumProximities = 24].  The
    records below carry the members the aggregator reads, with the
    attributes the spec's data model lists (every sub-reading carries a
    timestamp; a battery has voltage, current, temperature and charge; the
    batteries come as a low-power and a high-power set). *)

(** [DataPoint<T>]: a value with the time it was taken. *)
Record DataPoint (T : Type) : Type := mkDataPoint
  { timestamp : N;
    value     : T }.
Arguments mkDataPoint {T} _ _.
Arguments timestamp {T} _.
Arguments value {T} _.

Definition NavigationVector : Type := (Q * Q * Q)%type.

(** The fields the aggregator reads are [imu[i].acc.timestamp],
    [proxi_front.timestamp] and [proxi_back.timestamp]. *)
Record Imu : Type := mkImu
  { acc : DataPoint NavigationVector;
    gyr : DataPoint NavigationVector }.

Definition kNumImus : nat := 8.
Definition kNumProximities : nat := 24.

Record Sensors : Type := mkSensors
  { imu         : list Imu;                 (* std::array<Imu, kNumImus> *)
    proxi_front : DataPoint (list Z);
    proxi_back  : DataPoint (list Z);
    stripe_cnt  : DataPoint Z }.

Record Battery : Type := mkBattery
  { voltage     : Z;
    current     : Z;
    temperature : Z;
    charge      : Z }.

Record Batteries : Type := mkBatteries
  { low_power_batteries  : list Battery;
    high_power_batteries : list Battery }.

(** Zero-initialised elements, used for reads of an array slot. *)
Definition zeroVector : NavigationVector := (0%Q, 0%Q, 0%Q).
Definition zeroImu : Imu :=
  mkImu (mkDataPoint 0%N zeroVector) (mkDataPoint 0%N zeroVector).
Definition zeroBattery : Battery := mkBattery 0 0 0 0.

End Data.

(* ====================================================================== *)
(** * Sensor aggregator ([sensors/main.cpp]) *)
(* ====================================================================== *)

Module Sensors.
Import Data.

(** What the worker does to the outside world. *)
Inductive Event : Type :=
| SetSensorsData (s : Data.Sensors)
| SetBatteryData (b : Data.Batteries)
| Yield.

(** The worker's members: the buffers the device managers write into and
    the copies taken at the last publication. *)
Record Main : Type := mkMain
  { sensors_       : Data.Sensors;
    old_sensors_   : Data.Sensors;
    batteries_     : Data.Batteries;
    old_batteries_ : Data.Batteries }.

Definition imu_at (s : Data.Sensors) (i : nat) : Imu := nth i (imu s) zeroImu.
Definition lp_at (b : Data.Batteries) (i : nat) : Battery :=
  nth i (low_power_batteries b) zeroBattery.
Definition hp_at (b : Data.Batteries) (i : nat) : Battery :=
  nth i (high_power_batteries b) zeroBattery.

Definition imu_ts (s : Data.Sensors) (i : nat) : N := timestamp (acc (imu_at s i)).

(** [for (i = ...; i < kNumImus; i++) if (old.ts == new.ts) return false;]
    followed by [return true]; [todo] counts the indices still to visit. *)
Fixpoint updateImu_from (todo i : nat) (m : Main) : bool :=
  match todo with
  | O => true
  | S todo' =>
      if N.eqb (imu_ts (old_sensors_ m) i) (imu_ts (sensors_ m) i)
      then false
      else updateImu_from todo' (S i) m
  end.

Definition updateImu (m : Main) : bool := updateImu_from kNumImus 0 m.

Definition updateProxi (m : Main) : bool :=
  if N.eqb (timestamp (proxi_front (old_sensors_ m)))
           (timestamp (proxi_front (sensors_ m)))
  then false
  else if N.eqb (timestamp (proxi_back (old_sensors_ m)))
                (timestamp (proxi_back (sensors_ m)))
  then false
  else true.

Section WithBatteryCount.

(** [data::Batteries::kNumLPBatteries]: its declaration is not among the
    sources, so the number of low-power batteries is left open. *)
Variable kNumLPBatteries : nat.

(** [for (i = ...; i < kNumLPBatteries; i++) if (v differs || t differs)
    return true;] followed by [return false]. *)
Fixpoint updateBattery_from (todo i : nat) (m : Main) : bool :=
  match todo with
  | O => false
  | S todo' =>
      if negb (Z.eqb (voltage (lp_at (old_batteries_ m) i))
                     (voltage (lp_at (batteries_ m) i)))
         || negb (Z.eqb (temperature (lp_at (old_batteries_ m) i))
                        (temperature (lp_at (batteries_ m) i)))
      then true
      else updateBattery_from todo' (S i) m
  end.

Definition updateBattery (m : Main) : bool :=
  updateBattery_from kNumLPBatteries 0 m.

(** First [if] of the body of [while (1)] in [run]. *)
Definition publish_sensors (m : Main) : Main * list Event :=
  if updateImu m || updateProxi m
  then (mkMain (sensors_ m) (sensors_ m) (batteries_ m) (old_batteries_ m),
        [SetSensorsData (sensors_ m); Yield])
  else (m, []).

(** Second [if] of the body. *)
Definition publish_batteries (m : Main) : Main * list Event :=
  if updateBattery m
  then (mkMain (sensors_ m) (old_sensors_ m) (batteries_ m) (batteries_ m),
        [SetBatteryData (batteries_ m); Yield])
  else (m, []).

(** One turn of [while (1)]: the members afterwards and what was done. *)
Definition run_cycle (m : Main) : Main * list Event :=
  let (m1, e1) := publish_sensors m in
  let (m2, e2) := publish_batteries m1 in
  (m2, e1 ++ e2).

Definition is_SetSensorsData (e : Event) : bool :=
  match e with SetSensorsData _ => true | _ => false end.
Definition is_SetBatteryData (e : Event) : bool :=
  match e with SetBatteryData _ => true | _ => false end.

(** Whether the cycle wrote the Sensors (Batteries) substructure. *)
Definition sensors_published (m : Main) : bool :=
  existsb is_SetSensorsData (snd (run_cycle m)).
Definition batteries_published (m : Main) : bool :=
  existsb is_SetBatteryData (snd (run_cycle m)).

End WithBatteryCount.

(** ** The conditions as the specification words them *)

Definition advanced (old new : N) : Prop := (old < new)%N.

Definition imu_advanced (m : Main) (i : nat) : Prop :=
  advanced (imu_ts (old_sensors_ m) i) (imu_ts (sensors_ m) i).
Definition front_advanced (m : Main) : Prop :=
  advanced (timestamp (proxi_front (old_sensors_ m)))
           (timestamp (proxi_front (sensors_ m))).
Definition back_advanced (m : Main) : Prop :=
  advanced (timestamp (proxi_back (old_sensors_ m)))
           (timestamp (proxi_back (sensors_ m))).

(** "any IMU timestamp advanced AND both proximity banks' timestamps
    advanced". *)
Definition spec_sensors_updated (m : Main) : Prop :=
  (exists i, (i < kNumImus)%nat /\ imu_advanced m i)
  /\ front_advanced m /\ back_advanced m.

Definition battery_differs (old new : Battery) : Prop :=
  voltage old <> voltage new \/ temperature old <> temperature new.

(** "some battery's voltage or temperature differs", over both sets. *)
Definition spec_batteries_updated (m : Main) : Prop :=
  (exists i, (i < List.length (low_power_batteries (batteries_ m)))%nat
             /\ battery_differs (lp_at (old_batteries_ m) i) (lp_at (batteries_ m) i))
  \/
  (exists i, (i < List.length (high_power_batteries (batteries_ m)))%nat
             /\ battery_differs (hp_at (old_batteries_ m) i) (hp_at (batteries_ m) i)).

End Sensors.

(* ====================================================================== *)
(** * Navigation ([navigation/navigation.hpp]) *)
(* ====================================================================== *)

Module Navigation.

(** [constexpr NavigationType kEmergencyDeceleration = 24;  // m/s^2] *)
Definition kEmergencyDeceleration : Q := 24.

(** Modelled from the spec: the body of
    [Navigation::getEmergencyBrakingDistance] (navigation.cpp) is not among
    the sources, only its declaration and the constant above are.  The spec
    gives [emergency_braking_distance = velocity^2 / (2 * 24.0)] metres; the
    divisor is written with the constant of the header.  [NavigationType]
    is carried as an exact rational. *)
Definition getEmergencyBrakingDistance (velocity : Q) : Q :=
  (velocity * velocity / (2 * kEmergencyDeceleration))%Q.

(** Relative error of [x] against the reference [y] is at most [eps]. *)
Definition within_relative_error (eps x y : Q) : Prop :=
  (Qabs (x - y) <= eps * Qabs y)%Q.

(** The same computation when each arithmetic operation is followed by a
    rounding [fl] (the divisor [2 * 24] is a compile-time constant). *)
Definition getEmergencyBrakingDistance_rounded (fl : Q -> Q) (velocity : Q) : Q :=
  fl (fl (velocity * velocity) / (2 * kEmergencyDeceleration))%Q.

(** Unit roundoff of IEEE binary32. *)
Definition unit_roundoff : Q := 1 # (2 ^ 24).

End Navigation.

(* ====================================================================== *)
(** * Motor controller (motor_control/main.cpp) *)
(* ====================================================================== *)

Module MotorControl.

(** ** Fixed-width integers *)

(** Two's-complement value of [x] in [bits] bits.  (Overflow of a signed
    addition is formally undefined in C++; the target wraps.) *)
Definition wrap (bits x : Z) : Z :=
  (x + 2 ^ (bits - 1)) mod 2 ^ bits - 2 ^ (bits - 1).
Definition int32 (x : Z) : Z := wrap 32 x.
Definition INT32_MAX : Z := 2 ^ 31 - 1.
Definition INT32_MIN : Z := - 2 ^ 31.

(** ** Data read from and written to the registry *)

(** Modelled from the spec: [data::State] is declared in a part of data.hpp
    that is not among the sources; the spec lists the pod states. *)
Module State.
Inductive t : Type :=
| kIdle | kCalibrating | kReady | kAccelerating | kCruising | kDecelerating
| kRunComplete | kExiting | kEmergencyBraking | kFailureStopped.

Definition eqb (a b : t) : bool :=
  match a, b with
  | kIdle, kIdle | kCalibrating, kCalibrating | kReady, kReady
  | kAccelerating, kAccelerating | kCruising, kCruising
  | kDecelerating, kDecelerating | kRunComplete, kRunComplete
  | kExiting, kExiting | kEmergencyBraking, kEmergencyBraking
  | kFailureStopped, kFailureStopped => true
  | _, _ => false
  end.
End State.

Module ModuleStatus.
Inductive t : Type := kStart | kInit | kReady | kCriticalFailure.
End ModuleStatus.

(** The members of the registry's substructures that the worker touches. *)
Record StateMachineData : Type := mkStateMachineData
  { current_state    : State.t;
    critical_failure : bool }.

Record NavigationData : Type := mkNavigationData
  { distance     : Q;
    velocity     : Q;
    acceleration : Q;
    stripe_count : Z }.

Module MotorVelocity.
Record t : Type := mk
  { velocity_1 : Z; velocity_2 : Z; velocity_3 : Z; velocity_4 : Z }.
End MotorVelocity.

Module MotorTorque.
Record t : Type := mk
  { torque_1 : Z; torque_2 : Z; torque_3 : Z; torque_4 : Z }.
End MotorTorque.

Module Motors.
Record t : Type := mk
  { velocity_1 : Z; velocity_2 : Z; velocity_3 : Z; velocity_4 : Z;
    torque_1 : Z; torque_2 : Z; torque_3 : Z; torque_4 : Z;
    module_status : ModuleStatus.t }.
End Motors.

(** ** Members of [motor_control::Main] *)

(** Modelled from the spec: the class declaration (motor_control/main.hpp)
    is not among the sources.  The members are those the constructor
    initialises; [target_velocity_] and [target_torque_] have the types the
    methods computing them return ([int32_t], [int16_t]), which are those of
    the spec's [send_target_velocity(i32 x 4)] and
    [send_target_torque(i16 x 4)]. *)

Record Main : Type := mkMain
  { state_              : StateMachineData;
    motor_data_         : Motors.t;
    motor_velocity_     : MotorVelocity.t;
    motor_torque_       : MotorTorque.t;
    target_velocity_    : Z;       (* int32_t *)
    target_torque_      : Z;       (* int16_t *)
    run_                : bool;
    nav_calib_          : bool;
    motors_init_        : bool;
    motors_ready_       : bool;
    motor_failure_      : bool;
    all_motors_stopped_ : bool }.

Definition set_state_ (x : StateMachineData) (m : Main) : Main :=
  mkMain x (motor_data_ m) (motor_velocity_ m) (motor_torque_ m)
         (target_velocity_ m) (target_torque_ m) (run_ m) (nav_calib_ m)
         (motors_init_ m) (motors_ready_ m) (motor_failure_ m) (all_motors_stopped_ m).
Definition set_motor_data_ (x : Motors.t) (m : Main) : Main :=
  mkMain (state_ m) x (motor_velocity_ m) (motor_torque_ m)
         (target_velocity_ m) (target_torque_ m) (run_ m) (nav_calib_ m)
         (motors_init_ m) (motors_ready_ m) (motor_failure_ m) (all_motors_stopped_ m).
Definition set_motor_velocity_ (x : MotorVelocity.t) (m : Main) : Main :=
  mkMain (state_ m) (motor_data_ m) x (motor_torque_ m)
         (target_velocity_ m) (target_torque_ m) (run_ m) (nav_calib_ m)
         (motors_init_ m) (motors_ready_ m) (motor_failure_ m) (all_motors_stopped_ m).
Definition set_motor_torque_ (x : MotorTorque.t) (m : Main) : Main :=
  mkMain (state_ m) (motor_data_ m) (motor_velocity_ m) x
         (target_velocity_ m) (target_torque_ m) (run_ m) (nav_calib_ m)
         (motors_init_ m) (motors_ready_ m) (motor_failure_ m) (all_motors_stopped_ m).
Definition set_target_velocity_ (x : Z) (m : Main) : Main :=
  mkMain (state_ m) (motor_data_ m) (motor_velocity_ m) (motor_torque_ m)
         x (target_torque_ m) (run_ m) (nav_calib_ m)
         (motors_init_ m) (motors_ready_ m) (motor_failure_ m) (all_motors_stopped_ m).
Definition set_target_torque_ (x : Z) (m : Main) : Main :=
  mkMain (state_ m) (motor_data_ m) (motor_velocity_ m) (motor_torque_ m)
         (target_velocity_ m) x (run_ m) (nav_calib_ m)
         (motors_init_ m) (motors_ready_ m) (motor_failure_ m) (all_motors_stopped_ m).
Definition set_run_ (x : bool) (m : Main) : Main :=
  mkMain (state_ m) (motor_data_ m) (motor_velocity_ m) (motor_torque_ m)
         (target_velocity_ m) (target_torque_ m) x (nav_calib_ m)
         (motors_init_ m) (motors_ready_ m) (motor_failure_ m) (all_motors_stopped_ m).
Definition set_nav_calib_ (x : bool) (m : Main) : Main :=
  mkMain (state_ m) (motor_data_ m) (motor_velocity_ m) (motor_torque_ m)
         (target_velocity_ m) (target_torque_ m) (run_ m) x
         (motors_init_ m) (motors_ready_ m) (motor_failure_ m) (all_motors_stopped_ m).
Definition set_motors_init_ (x : bool) (m : Main) : Main :=
  mkMain (state_ m) (motor_data_ m) (motor_velocity_ m) (motor_torque_ m)
         (target_velocity_ m) (target_torque_ m) (run_ m) (nav_calib_ m)
         x (motors_ready_ m) (motor_failure_ m) (all_motors_stopped_ m).
Definition set_motors_ready_ (x : bool) (m : Main) : Main :=
  mkMain (state_ m) (motor_data_ m) (motor_velocity_ m) (motor_torque_ m)
         (target_velocity_ m) (target_torque_ m) (run_ m) (nav_calib_ m)
         (motors_init_ m) x (motor_failure_ m) (all_motors_stopped_ m).
Definition set_motor_failure_ (x : bool) (m : Main) : Main :=
  mkMain (state_ m) (motor_data_ m) (motor_velocity_ m) (motor_torque_ m)
         (target_velocity_ m) (target_torque_ m) (run_ m) (nav_calib_ m)
         (motors_init_ m) (motors_ready_ m) x (all_motors_stopped_ m).
Definition set_all_motors_stopped_ (x : bool) (m : Main) : Main :=
  mkMain (state_ m) (motor_data_ m) (motor_velocity_ m) (motor_torque_ m)
         (target_velocity_ m) (target_torque_ m) (run_ m) (nav_calib_ m)
         (motors_init_ m) (motors_ready_ m) (motor_failure_ m) x.

(** ** The world around the worker *)

Inductive Level : Type := INFO | DBG2 | ERR.

(** Every call that leaves the object, with what it carried or returned.
    A log line keeps its level and its text, without the "MOTOR" tag and
    the trailing newline. *)
Inductive Event : Type :=
| Log (lvl : Level) (msg : string)
| RegisterControllers
| ConfigureControllers
| PrepareMotors
| HealthCheck
| GetFailure (failed : bool)
| SendTargetVelocity (rpm : Z)
| SendTargetTorque (torque : Z)
| RequestActualVelocity (v : MotorVelocity.t)
| RequestActualTorque (q : MotorTorque.t)
| QuickStopAll
| EnterPreOperational
| GetStateMachineData (sm : StateMachineData)
| GetNavigationData (nav : NavigationData)
| GetMotorData (md : Motors.t)
| SetMotorData (md : Motors.t)
| BarrierWait
| Yield.

(** What the registry and the CAN communicator answer: the k-th call of each
    kind gets the k-th answer.  The worker is deterministic, so this covers
    every behaviour of the other threads and of the controllers. *)
Record Env : Type := mkEnv
  { state_machine_data : nat -> StateMachineData;
    navigation_data    : nat -> NavigationData;
    failure            : nat -> bool;
    actual_velocity    : nat -> MotorVelocity.t;
    actual_torque      : nat -> MotorTorque.t;
    initial_motor_data : Motors.t }.

(** How many answers of each kind were consumed so far. *)
Record Reads : Type := mkReads
  { n_state : nat; n_nav : nat; n_failure : nat; n_velocity : nat; n_torque : nat }.

Record Sys : Type := mkSys
  { me    : Main;
    reads : Reads }.

(** ** A monad for the worker: reader of [Env], state [Sys], a log of events,
       and loops that may run out of iterations *)

Inductive Outcome (A : Type) : Type :=
| Done (a : A) (s : Sys) (tr : list Event)
| Timeout (s : Sys) (tr : list Event).
Arguments Done {A} _ _ _.
Arguments Timeout {A} _ _.

Definition M (A : Type) : Type := Env -> Sys -> Outcome A.

Definition ret {A} (a : A) : M A := fun _ s => Done a s [].

Definition bind {A B} (m : M A) (k : A -> M B) : M B :=
  fun env s =>
    match m env s with
    | Timeout s1 t1 => Timeout s1 t1
    | Done a s1 t1 =>
        match k a env s1 with
        | Done b s2 t2 => Done b s2 (t1 ++ t2)
        | Timeout s2 t2 => Timeout s2 (t1 ++ t2)
        end
    end.

Declare Scope motor_scope.
Delimit Scope motor_scope with motor.
Notation "x <- m ;; k" := (bind m (fun x => k))
  (at level 61, m at next level, right associativity) : motor_scope.
Notation "m ;; k" := (bind m (fun _ => k))
  (at level 61, right associativity) : motor_scope.
Local Open Scope motor_scope.

Definition out_of_iterations {A} : M A := fun _ s => Timeout s [].
Definition emit (e : Event) : M unit := fun _ s => Done tt s [e].
Definition self : M Main := fun _ s => Done (me s) s [].
Definition modify (f : Main -> Main) : M unit :=
  fun _ s => Done tt (mkSys (f (me s)) (reads s)) [].
Definition when (b : bool) (m : M unit) : M unit := if b then m else ret tt.

Definition trace {A} (o : Outcome A) : list Event :=
  match o with Done _ _ t => t | Timeout _ t => t end.
Definition final {A} (o : Outcome A) : Sys :=
  match o with Done _ s _ => s | Timeout s _ => s end.
Definition returned {A} (o : Outcome A) : bool :=
  match o with Done _ _ _ => true | Timeout _ _ => false end.

(** *** The registry ([data_]) *)

Definition getStateMachineData : M StateMachineData :=
  fun env s =>
    let r := reads s in
    let sm := state_machine_data env (n_state r) in
    Done sm
         (mkSys (me s) (mkReads (S (n_state r)) (n_nav r) (n_failure r)
                                (n_velocity r) (n_torque r)))
         [GetStateMachineData sm].

Definition getNavigationData : M NavigationData :=
  fun env s =>
    let r := reads s in
    let nav := navigation_data env (n_nav r) in
    Done nav
         (mkSys (me s) (mkReads (n_state r) (S (n_nav r)) (n_failure r)
                                (n_velocity r) (n_torque r)))
         [GetNavigationData nav].

Definition getMotorData : M Motors.t :=
  fun env s => Done (initial_motor_data env) s [GetMotorData (initial_motor_data env)].

Definition setMotorData (md : Motors.t) : M unit := emit (SetMotorData md).

(** *** The CAN communicator ([communicator_]) *)

Definition registerControllers : M unit := emit RegisterControllers.
Definition configureControllers : M unit := emit ConfigureControllers.
Definition communicator_prepareMotors : M unit := emit PrepareMotors.
Definition healthCheck : M unit := emit HealthCheck.
Definition sendTargetVelocity (rpm : Z) : M unit := emit (SendTargetVelocity rpm).
Definition sendTargetTorque (q : Z) : M unit := emit (SendTargetTorque q).
Definition quickStopAll : M unit := emit QuickStopAll.
Definition enterPreOperational : M unit := emit EnterPreOperational.

Definition getFailure : M bool :=
  fun env s =>
    let r := reads s in
    let b := failure env (n_failure r) in
    Done b
         (mkSys (me s) (mkReads (n_state r) (n_nav r) (S (n_failure r))
                                (n_velocity r) (n_torque r)))
         [GetFailure b].

Definition requestActualVelocity : M MotorVelocity.t :=
  fun env s =>
    let r := reads s in
    let v := actual_velocity env (n_velocity r) in
    Done v
         (mkSys (me s) (mkReads (n_state r) (n_nav r) (n_failure r)
                                (S (n_velocity r)) (n_torque r)))
         [RequestActualVelocity v].

Definition requestActualTorque : M MotorTorque.t :=
  fun env s =>
    let r := reads s in
    let q := actual_torque env (n_torque r) in
    Done q
         (mkSys (me s) (mkReads (n_state r) (n_nav r) (n_failure r)
                                (n_velocity r) (S (n_torque r))))
         [RequestActualTorque q].

(** *** Barrier, scheduler, logger *)

Definition post_calibration_barrier_wait : M unit := emit BarrierWait.
Definition yield : M unit := emit Yield.
Definition log (lvl : Level) (msg : string) : M unit := emit (Log lvl msg).

(** ** The methods of [motor_control::Main] *)

Definition zeroMotors : Motors.t :=
  Motors.mk 0 0 0 0 0 0 0 0 ModuleStatus.kStart.

Definition with_module_status (st : ModuleStatus.t) (d : Motors.t) : Motors.t :=
  Motors.mk (Motors.velocity_1 d) (Motors.velocity_2 d) (Motors.velocity_3 d)
            (Motors.velocity_4 d) (Motors.torque_1 d) (Motors.torque_2 d)
            (Motors.torque_3 d) (Motors.torque_4 d) st.

Definition with_readings (v : MotorVelocity.t) (q : MotorTorque.t) (d : Motors.t)
  : Motors.t :=
  Motors.mk (MotorVelocity.velocity_1 v) (MotorVelocity.velocity_2 v)
            (MotorVelocity.velocity_3 v) (MotorVelocity.velocity_4 v)
            (MotorTorque.torque_1 q) (MotorTorque.torque_2 q)
            (MotorTorque.torque_3 q) (MotorTorque.torque_4 q)
            (Motors.module_status d).

(** [motor_velocity_.velocity_1 == 0 && ... && motor_velocity_.velocity_4 == 0] *)
Definition all_zero (v : MotorVelocity.t) : bool :=
  (MotorVelocity.velocity_1 v =? 0) && (MotorVelocity.velocity_2 v =? 0)
  && (MotorVelocity.velocity_3 v =? 0) && (MotorVelocity.velocity_4 v =? 0).

(** [Main::Main]: the members after the initialiser list, before the body. *)
Definition initial_members (sm : StateMachineData) (md : Motors.t) : Main :=
  mkMain sm md (MotorVelocity.mk 0 0 0 0) (MotorTorque.mk 0 0 0 0)
         0 0 true false false false false false.

Definition initial_reads : Reads := mkReads 0 0 0 0 0.

(** [Main::Main]: body of the constructor. *)
Definition constructor : M unit :=
  sm <- getStateMachineData ;;
  modify (set_state_ sm) ;;
  md <- getMotorData ;;
  modify (set_motor_data_ md) ;;
  m <- self ;;
  modify (set_motor_data_
            (with_readings (MotorVelocity.mk 0 0 0 0) (MotorTorque.mk 0 0 0 0)
               (with_module_status ModuleStatus.kStart (motor_data_ m)))) ;;
  m <- self ;;
  setMotorData (motor_data_ m) ;;
  modify (set_motor_velocity_ (MotorVelocity.mk 0 0 0 0)) ;;
  modify (set_motor_torque_ (MotorTorque.mk 0 0 0 0)).

(** [Main::updateMotorData] *)
Definition updateMotorData : M unit :=
  v <- requestActualVelocity ;;
  modify (set_motor_velocity_ v) ;;
  q <- requestActualTorque ;;
  modify (set_motor_torque_ q) ;;
  m <- self ;;
  modify (set_motor_data_ (with_readings (motor_velocity_ m) (motor_torque_ m)
                                         (motor_data_ m))) ;;
  m <- self ;;
  setMotorData (motor_data_ m).

(** [Main::updateMotorFailure] *)
Definition updateMotorFailure : M unit :=
  log ERR "Motor State: MOTOR FAILURE" ;;
  m <- self ;;
  modify (set_motor_data_ (with_module_status ModuleStatus.kCriticalFailure
                                              (motor_data_ m))) ;;
  m <- self ;;
  setMotorData (motor_data_ m) ;;
  modify (set_motor_failure_ true).

(** [Main::initMotors] *)
Definition initMotors : M unit :=
  m <- self ;;
  when (negb (motors_init_ m) && negb (motor_failure_ m))
    (registerControllers ;;
     configureControllers ;;
     failed <- getFailure ;;
     if failed then updateMotorFailure
     else
       m <- self ;;
       modify (set_motor_data_ (with_module_status ModuleStatus.kInit
                                                   (motor_data_ m))) ;;
       m <- self ;;
       setMotorData (motor_data_ m) ;;
       modify (set_motors_init_ true) ;;
       log INFO "Motor State: Idle").

(** [Main::prepareMotors] *)
Definition prepareMotors : M unit :=
  m <- self ;;
  when (negb (motors_ready_ m) && negb (motor_failure_ m))
    (communicator_prepareMotors ;;
     healthCheck ;;
     failed <- getFailure ;;
     if failed then updateMotorFailure
     else
       m <- self ;;
       modify (set_motor_data_ (with_module_status ModuleStatus.kReady
                                                   (motor_data_ m))) ;;
       m <- self ;;
       setMotorData (motor_data_ m) ;;
       modify (set_motors_ready_ true) ;;
       log INFO "Motor State: Ready").

(** One turn of [while (!all_motors_stopped_)] in [stopMotors]. *)
Definition stop_body : M unit :=
  log DBG2 "Motor State: Stopping" ;;
  updateMotorData ;;
  m <- self ;;
  when (all_zero (motor_velocity_ m))
    (modify (set_all_motors_stopped_ true) ;;
     log INFO "Motor State: Stopped").

(** [while (!all_motors_stopped_) { ... }], at most [n] turns. *)
Fixpoint stop_loop (n : nat) : M unit :=
  m <- self ;;
  if negb (all_motors_stopped_ m)
  then match n with
       | O => out_of_iterations
       | S n' => stop_body ;; stop_loop n'
       end
  else ret tt.

(** [Main::stopMotors] *)
Definition stopMotors (n : nat) : M unit :=
  quickStopAll ;;
  stop_loop n ;;
  updateMotorData ;;
  enterPreOperational.

(** [return target_velocity_ += 100;] -- the argument is not used. *)
Definition accelerationVelocity (velocity : Q) : M Z :=
  m <- self ;;
  modify (set_target_velocity_ (int32 (target_velocity_ m + 100))) ;;
  m <- self ;;
  ret (target_velocity_ m).

(** [return target_velocity_ -= 100;] -- the argument is not used. *)
Definition decelerationVelocity (velocity : Q) : M Z :=
  m <- self ;;
  modify (set_target_velocity_ (int32 (target_velocity_ m - 100))) ;;
  m <- self ;;
  ret (target_velocity_ m).

(** [return 0;] *)
Definition accelerationTorque (velocity : Q) : M Z := ret 0.
Definition decelerationTorque (velocity : Q) : M Z := ret 0.

(** [Main::servicePropulsion]: empty body. *)
Definition servicePropulsion : M unit := ret tt.

(** How a turn of a [while] ends: fall through to the test, or [break]. *)
Inductive Flow : Type := Continue | Break.

(** One turn of the [while] of [accelerateMotors]. *)
Definition accelerate_body (n : nat) : M Flow :=
  sm <- getStateMachineData ;;
  modify (set_state_ sm) ;;
  m <- self ;;
  if critical_failure (state_ m)
  then stopMotors n ;; ret Break
  else
    healthCheck ;;
    failed <- getFailure ;;
    if failed
    then updateMotorFailure ;; stopMotors n ;; ret Break
    else
      log DBG2 "Motor State: Accelerating" ;;
      nav_ <- getNavigationData ;;
      v <- accelerationVelocity (velocity nav_) ;;
      modify (set_target_velocity_ v) ;;
      q <- accelerationTorque (velocity nav_) ;;
      modify (set_target_torque_ q) ;;
      m <- self ;;
      sendTargetVelocity (target_velocity_ m) ;;
      sendTargetTorque (target_torque_ m) ;;
      updateMotorData ;;
      ret Continue.

(** One turn of the [while] of [decelerateMotors]. *)
Definition decelerate_body (n : nat) : M Flow :=
  sm <- getStateMachineData ;;
  modify (set_state_ sm) ;;
  m <- self ;;
  if critical_failure (state_ m)
  then stopMotors n ;; ret Break
  else
    healthCheck ;;
    failed <- getFailure ;;
    if failed
    then updateMotorFailure ;; stopMotors n ;; ret Break
    else
      log DBG2 "Motor State: Deccelerating" ;;
      nav_ <- getNavigationData ;;
      v <- decelerationVelocity (velocity nav_) ;;
      modify (set_target_velocity_ v) ;;
      q <- decelerationTorque (velocity nav_) ;;
      modify (set_target_torque_ q) ;;
      m <- self ;;
      sendTargetVelocity (target_velocity_ m) ;;
      sendTargetTorque (target_torque_ m) ;;
      updateMotorData ;;
      ret Continue.

(** [while (state_.current_state == st) { body }], at most [k] turns. *)
Fixpoint while_state (st : State.t) (body : M Flow) (k : nat) : M unit :=
  m <- self ;;
  if State.eqb (current_state (state_ m)) st
  then match k with
       | O => out_of_iterations
       | S k' =>
           c <- body ;;
           match c with
           | Break => ret tt
           | Continue => while_state st body k'
           end
       end
  else ret tt.

(** [Main::accelerateMotors]; [n] bounds the turns of each loop. *)
Definition accelerateMotors (n : nat) : M unit :=
  m <- self ;;
  when (negb (nav_calib_ m))
    (post_calibration_barrier_wait ;;
     modify (set_nav_calib_ true)) ;;
  log INFO "Motor State: Accelerating" ;;
  while_state State.kAccelerating (accelerate_body n) n.

(** [Main::decelerateMotors] *)
Definition decelerateMotors (n : nat) : M unit :=
  log INFO "Motor State: Deccelerating" ;;
  while_state State.kDecelerating (decelerate_body n) n.

(** One turn of [while (run_)] in [Main::run]. *)
Definition run_body (n : nat) : M unit :=
  sm <- getStateMachineData ;;
  modify (set_state_ sm) ;;
  m <- self ;;
  match current_state (state_ m) with
  | State.kIdle => initMotors ;; yield
  | State.kCalibrating => prepareMotors ;; yield
  | State.kAccelerating => accelerateMotors n
  | State.kDecelerating => decelerateMotors n
  | State.kRunComplete => ret tt
  | State.kExiting => servicePropulsion
  | State.kEmergencyBraking => stopMotors n
  | State.kFailureStopped => enterPreOperational
  | _ => modify (set_run_ false)
  end.

(** [while (run_) { ... }], at most [k] turns. *)
Fixpoint run_loop (n k : nat) : M unit :=
  m <- self ;;
  if run_ m
  then match k with
       | O => out_of_iterations
       | S k' => run_body n ;; run_loop n k'
       end
  else ret tt.

(** [Main::run] *)
Definition run (n : nat) : M unit :=
  log INFO "Starting motor controller" ;;
  run_loop n n.

(** A whole life of the worker: construction, then [run]. *)
Definition lifetime (n : nat) : M unit := constructor ;; run n.

(** The object when the constructor body starts: the initialiser list has
    run; [state_] and [motor_data_] are assigned by the body before they are
    read. *)
Definition blank : Sys :=
  mkSys (initial_members (mkStateMachineData State.kIdle false) zeroMotors)
        initial_reads.

(** ** Reading traces *)

Definition is_setpoint (e : Event) : bool :=
  match e with
  | SendTargetVelocity _ | SendTargetTorque _ => true
  | _ => false
  end.

Definition is_BarrierWait (e : Event) : bool :=
  match e with BarrierWait => true | _ => false end.

(** The target velocities (torques) sent, in order. *)
Fixpoint sent_velocities (tr : list Event) : list Z :=
  match tr with
  | [] => []
  | SendTargetVelocity v :: tr' => v :: sent_velocities tr'
  | _ :: tr' => sent_velocities tr'
  end.

Fixpoint sent_torques (tr : list Event) : list Z :=
  match tr with
  | [] => []
  | SendTargetTorque q :: tr' => q :: sent_torques tr'
  | _ :: tr' => sent_torques tr'
  end.

End MotorControl.

(* ====================================================================== *)
(** * Motor controller: vocabulary of the statements *)
(* ====================================================================== *)

Module MotorSpec.
Import MotorControl.

(** The motor data whose four velocities are those of [v], whose four
    torques are those of [q] and whose module status is [st], member by
    member. *)
Definition motor_data_of (v : MotorVelocity.t) (q : MotorTorque.t) (st : ModuleStatus.t)
  : Motors.t :=
  {| Motors.velocity_1 := MotorVelocity.velocity_1 v;
     Motors.velocity_2 := MotorVelocity.velocity_2 v;
     Motors.velocity_3 := MotorVelocity.velocity_3 v;
     Motors.velocity_4 := MotorVelocity.velocity_4 v;
     Motors.torque_1 := MotorTorque.torque_1 q;
     Motors.torque_2 := MotorTorque.torque_2 q;
     Motors.torque_3 := MotorTorque.torque_3 q;
     Motors.torque_4 := MotorTorque.torque_4 q;
     Motors.module_status := st |}.

(** All four wheels stand still. *)
Definition standing (v : MotorVelocity.t) : Prop :=
  MotorVelocity.velocity_1 v = 0 /\ MotorVelocity.velocity_2 v = 0
  /\ MotorVelocity.velocity_3 v = 0 /\ MotorVelocity.velocity_4 v = 0.

(** The three calls of one [updateMotorData] that takes the velocity answer
    number [iv] and the torque answer number [iq], for motor data [d]: the
    two requests, and the publication of what they answered under the
    module status of [d]. *)
Definition refresh_events (env : Env) (iv iq : nat) (d : Motors.t) : list Event :=
  [ RequestActualVelocity (actual_velocity env iv);
    RequestActualTorque (actual_torque env iq);
    SetMotorData (motor_data_of (actual_velocity env iv) (actual_torque env iq)
                                (Motors.module_status d)) ].

(** The system after one [updateMotorData]. *)
Definition refreshed (env : Env) (s : Sys) : Sys :=
  let v := actual_velocity env (n_velocity (reads s)) in
  let q := actual_torque env (n_torque (reads s)) in
  mkSys (set_motor_data_ (motor_data_of v q (Motors.module_status (motor_data_ (me s))))
           (set_motor_torque_ q (set_motor_velocity_ v (me s))))
        (mkReads (n_state (reads s)) (n_nav (reads s)) (n_failure (reads s))
                 (S (n_velocity (reads s))) (S (n_torque (reads s)))).

(** The system once [all_motors_stopped_] is set. *)
Definition latched (s : Sys) : Sys :=
  mkSys (set_all_motors_stopped_ true (me s)) (reads s).

(** Turn number [j] of the stopping loop entered at [s]. *)
Definition stopping_events (env : Env) (s : Sys) (j : nat) : list Event :=
  Log DBG2 "Motor State: Stopping"
  :: refresh_events env (j + n_velocity (reads s)) (j + n_torque (reads s))
                    (motor_data_ (me s)).

(** What [stopMotors] does when the velocity answer number [k] (counted from
    the call) is the first with four zeros. *)
Definition stop_procedure (env : Env) (s : Sys) (k : nat) : list Event :=
  QuickStopAll
  :: flat_map (stopping_events env s) (seq 0 (S k))
  ++ Log INFO "Motor State: Stopped"
  :: refresh_events env (S k + n_velocity (reads s)) (S k + n_torque (reads s))
                    (motor_data_ (me s))
  ++ [EnterPreOperational].

Definition is_GetStateMachineData (e : Event) : bool :=
  match e with GetStateMachineData _ => true | _ => false end.

(** The worker's calls that [stopMotors] is made of. *)
Definition is_stop_call (e : Event) : bool :=
  match e with
  | QuickStopAll | Log _ _ | RequestActualVelocity _ | RequestActualTorque _
  | SetMotorData _ | EnterPreOperational => true
  | _ => false
  end.

(** The velocity answer number [j], counted from [s]. *)
Definition reported (env : Env) (s : Sys) (j : nat) : MotorVelocity.t :=
  actual_velocity env (j + n_velocity (reads s)).

(** The registry's answer to the next [getStateMachineData], and the system
    once [state_] holds it. *)
Definition next_state (env : Env) (s : Sys) : StateMachineData :=
  state_machine_data env (n_state (reads s)).

Definition state_read (env : Env) (s : Sys) : Sys :=
  mkSys (set_state_ (next_state env s) (me s))
        (mkReads (S (n_state (reads s))) (n_nav (reads s)) (n_failure (reads s))
                 (n_velocity (reads s)) (n_torque (reads s))).

(** The communicator's answer to the next [getFailure]. *)
Definition next_failure (env : Env) (s : Sys) : bool :=
  failure env (n_failure (reads s)).

(** The turn ended by falling through to the loop test. *)
Definition continues (o : Outcome Flow) : bool :=
  match o with Done Continue _ _ => true | _ => false end.

(** Only calls of [stopMotors] were made. *)
Definition only_stop_calls (s : Sys) (t : list Event) (s' : Sys) : Prop :=
  Forall (fun e => is_stop_call e = true) t.

(** Every torque setpoint sent was zero. *)
Definition torques_zero (s : Sys) (t : list Event) (s' : Sys) : Prop :=
  Forall (fun q => q = 0) (sent_torques t).

(** A program obeys [R] when [R] relates the state before, the events
    emitted and the state after, in every environment and whether or not
    the program returned. *)
Definition obeys (R : Sys -> list Event -> Sys -> Prop) {A} (m : M A) : Prop :=
  forall env s, R s (trace (m env s)) (final (m env s)).

(** The turns that [while (state_.current_state == st) { body }] takes from
    [s] when it is allowed [k] of them, each with the system it started
    from and what it did: a turn is taken whenever the test holds, and the
    loop comes back to the test only after a turn that fell through. *)
Fixpoint turns_taken (st : State.t) (body : M Flow) (k : nat) (env : Env) (s : Sys)
  : list (Sys * Outcome Flow) :=
  match k with
  | O => []
  | S k' =>
      if State.eqb (current_state (state_ (me s))) st
      then (s, body env s)
           :: match body env s with
              | Done Continue s' _ => turns_taken st body k' env s'
              | _ => []
              end
      else []
  end.

(** The calls of a list of turns, in order. *)
Definition calls_of (turns : list (Sys * Outcome Flow)) : list Event :=
  flat_map (fun turn => trace (snd turn)) turns.

(** The system once the rendezvous of [accelerateMotors] is behind. *)
Definition rendezvoused (s : Sys) : Sys :=
  if nav_calib_ (me s) then s else mkSys (set_nav_calib_ true (me s)) (reads s).

(** How many rendezvous the worker may still make. *)
Definition waits_left (s : Sys) : nat := if nav_calib_ (me s) then 0 else 1.

Definition barrier_budget (s : Sys) (t : list Event) (s' : Sys) : Prop :=
  (List.length (filter is_BarrierWait t) + waits_left s' <= waits_left s)%nat.

Definition failure_latch_kept (s : Sys) (t : list Event) (s' : Sys) : Prop :=
  motor_failure_ (me s) = true -> motor_failure_ (me s') = true.

(** [target_velocity_] holds an [int32_t]. *)
Definition target_in_range (s : Sys) : Prop :=
  INT32_MIN <= target_velocity_ (me s) <= INT32_MAX.

(** The first [len] terms of the progression from [start] by steps of [step]. *)
Definition progression (start step : Z) (len : nat) : list Z :=
  map (fun j => start + step * Z.of_nat (S j)) (seq 0 len).

End MotorSpec.

(* ====================================================================== *)
(** * Motor controller: the states the methods leave, written out *)
(* ====================================================================== *)

Module MotorStates.
Import MotorControl MotorSpec.

(** The system once the communicator has answered [getFailure]. *)
Definition failure_read (s : Sys) : Sys :=
  mkSys (me s)
        (mkReads (n_state (reads s)) (n_nav (reads s)) (S (n_failure (reads s)))
                 (n_velocity (reads s)) (n_torque (reads s))).

(** The system once [motor_data_.module_status] is [st]. *)
Definition marked (st : ModuleStatus.t) (s : Sys) : Sys :=
  mkSys (set_motor_data_ (with_module_status st (motor_data_ (me s))) (me s))
        (reads s).

(** The system after [updateMotorFailure], after the successful branch of
    [initMotors], and after the successful branch of [prepareMotors]. *)
Definition failure_flagged (s : Sys) : Sys :=
  mkSys (set_motor_failure_ true (me (marked ModuleStatus.kCriticalFailure s)))
        (reads s).

(** What [updateMotorFailure] does. *)
Definition failure_events (s : Sys) : list Event :=
  [ Log ERR "Motor State: MOTOR FAILURE";
    SetMotorData (with_module_status ModuleStatus.kCriticalFailure
                                     (motor_data_ (me s))) ].

(** The system after the setpoint part of a turn that made [v] the target
    velocity: navigation read, both setpoints stored, readings refreshed. *)
Definition stepped (v : Z) (env : Env) (s : Sys) : Sys :=
  refreshed env
    (mkSys (set_target_torque_ 0
              (set_target_velocity_ v (set_target_velocity_ v (me s))))
           (mkReads (n_state (reads s)) (S (n_nav (reads s))) (n_failure (reads s))
                    (n_velocity (reads s)) (n_torque (reads s)))).

(** The calls of that part. *)
Definition drive_events (msg : string) (v : Z) (env : Env) (s : Sys) : list Event :=
  Log DBG2 msg
  :: GetNavigationData (navigation_data env (n_nav (reads s)))
  :: SendTargetVelocity v
  :: SendTargetTorque 0
  :: refresh_events env (n_velocity (reads s)) (n_torque (reads s))
                    (motor_data_ (me s)).

(** A turn that ends in [stopMotors(); break;] after the calls [pre]. *)
Definition after_stop (pre : list Event) (o : Outcome unit) : Outcome Flow :=
  match o with
  | Done _ s t => Done Break s (pre ++ t)
  | Timeout s t => Timeout s (pre ++ t)
  end.

(** One turn of the accelerating ([delta = 100]) or of the decelerating
    ([delta = -100]) loop, by its three ways through the body. *)
Definition turn (msg : string) (delta : Z) (n : nat) (env : Env) (s : Sys)
  : Outcome Flow :=
  let sm := next_state env s in
  let v := int32 (target_velocity_ (me s) + delta) in
  if critical_failure sm
  then after_stop [GetStateMachineData sm] (stopMotors n env (state_read env s))
  else if next_failure env s
  then after_stop
         (GetStateMachineData sm :: HealthCheck :: GetFailure true
          :: failure_events s)
         (stopMotors n env (failure_flagged (failure_read (state_read env s))))
  else Done Continue (stepped v env (failure_read (state_read env s)))
            (GetStateMachineData sm :: HealthCheck :: GetFailure false
             :: drive_events msg v env s).

(** What a turn of [while (run_)] does once [state_] holds the snapshot:
    the chain of [if]s of [Main::run]. *)
Definition dispatch (st : State.t) (n : nat) : M unit :=
  (match st with
   | State.kIdle => initMotors ;; yield
   | State.kCalibrating => prepareMotors ;; yield
   | State.kAccelerating => accelerateMotors n
   | State.kDecelerating => decelerateMotors n
   | State.kRunComplete => ret tt
   | State.kExiting => servicePropulsion
   | State.kEmergencyBraking => stopMotors n
   | State.kFailureStopped => enterPreOperational
   | _ => modify (set_run_ false)
   end)%motor.

(** An outcome with the calls [pre] made before it. *)
Definition preceded {A} (pre : list Event) (o : Outcome A) : Outcome A :=
  match o with
  | Done a s t => Done a s (pre ++ t)
  | Timeout s t => Timeout s (pre ++ t)
  end.

(** ** Relations between the state before and after *)

(** Everything but the readings, the published readings and the stopped
    latch is as before. *)
Definition undisturbed (m m' : Main) : Prop :=
  state_ m' = state_ m
  /\ target_velocity_ m' = target_velocity_ m
  /\ target_torque_ m' = target_torque_ m
  /\ run_ m' = run_ m
  /\ nav_calib_ m' = nav_calib_ m
  /\ motors_init_ m' = motors_init_ m
  /\ motors_ready_ m' = motors_ready_ m
  /\ motor_failure_ m' = motor_failure_ m
  /\ Motors.module_status (motor_data_ m') = Motors.module_status (motor_data_ m).

(** The motor data written to the registry has module status [st]. *)
Definition publishes_status (st : ModuleStatus.t) (e : Event) : Prop :=
  match e with
  | SetMotorData d => Motors.module_status d = st
  | _ => True
  end.

(** What [stopMotors] keeps: the members above, the stopped latch once
    set, the answers of the registry and the health answers unconsumed, and
    the module status in every publication. *)
Definition stop_keeps (s : Sys) (t : list Event) (s' : Sys) : Prop :=
  undisturbed (me s) (me s')
  /\ (all_motors_stopped_ (me s) = true -> all_motors_stopped_ (me s') = true)
  /\ n_state (reads s') = n_state (reads s)
  /\ n_nav (reads s') = n_nav (reads s)
  /\ n_failure (reads s') = n_failure (reads s)
  /\ Forall (publishes_status (Motors.module_status (motor_data_ (me s)))) t.

(** The latches only go one way. *)
Definition latches_kept (m m' : Main) : Prop :=
  (nav_calib_ m = true -> nav_calib_ m' = true)
  /\ (motors_init_ m = true -> motors_init_ m' = true)
  /\ (motors_ready_ m = true -> motors_ready_ m' = true)
  /\ (motor_failure_ m = true -> motor_failure_ m' = true)
  /\ (all_motors_stopped_ m = true -> all_motors_stopped_ m' = true)
  /\ (run_ m = false -> run_ m' = false).

Definition one_way (s : Sys) (t : list Event) (s' : Sys) : Prop :=
  latches_kept (me s) (me s').

(** A call that is neither a setpoint nor a publication of motor data. *)
Definition is_plain_call (e : Event) : bool :=
  match e with
  | SendTargetVelocity _ | SendTargetTorque _ | SetMotorData _ => false
  | _ => true
  end.

(** No target velocity or torque was sent. *)
Definition no_setpoint (s : Sys) (t : list Event) (s' : Sys) : Prop :=
  existsb is_setpoint t = false.

(** From a failed worker whose status is critical: it stays so, and so
    does every publication. *)
Definition failed (s : Sys) : Prop :=
  motor_failure_ (me s) = true
  /\ Motors.module_status (motor_data_ (me s)) = ModuleStatus.kCriticalFailure.

Definition stays_critical (s : Sys) (t : list Event) (s' : Sys) : Prop :=
  failed s ->
  failed s' /\ Forall (publishes_status ModuleStatus.kCriticalFailure) t.

(** A value of [int32_t]. *)
Definition fits_int32 (x : Z) : Prop := INT32_MIN <= x <= INT32_MAX.

Definition stays_int32 (s : Sys) (t : list Event) (s' : Sys) : Prop :=
  target_in_range s ->
  target_in_range s' /\ Forall fits_int32 (sent_velocities t).

(** The registry answers nothing older than what was read already. *)
Definition reads_advance (s : Sys) (t : list Event) (s' : Sys) : Prop :=
  (n_state (reads s) <= n_state (reads s'))%nat.

(** From the next answer on, every state-machine snapshot has
    [critical_failure] set. *)
Definition critical_from_now (env : Env) (s : Sys) : Prop :=
  forall i, (n_state (reads s) <= i)%nat ->
            critical_failure (state_machine_data env i) = true.

End MotorStates.

(* ====================================================================== *)
(** * The post-calibration barrier, from both sides *)
(* ====================================================================== *)

Module Rendezvous.
Import MotorControl MotorSpec.

(** ** The worker's side *)

(** Every wait on the barrier is paid for by the latch [nav_calib_]. *)
Definition barrier_account (s : Sys) (t : list Event) (s' : Sys) : Prop :=
  (List.length (filter is_BarrierWait t) + waits_left s' = waits_left s)%nat.

(** No wait on the barrier, and the latch as it was. *)
Definition without_rendezvous (s : Sys) (t : list Event) (s' : Sys) : Prop :=
  ~ In BarrierWait t /\ nav_calib_ (me s') = nav_calib_ (me s).

(** ** Navigation's side *)

(** Modelled from the spec: [Navigation::finishCalibration] has only its
    declaration in navigation.hpp; [data::NavigationState] and the class
    [Barrier] are declared in files that are not among the sources.  The
    header documents the method as "Transition the navigation module from
    'ready' to 'operational' state.  Hits the post_calibration_barrier
    before returning true", with false for "Transition to 'operational'
    state is not possible at the moment", and the constructor's parameter
    as the barrier the module "will wait on ... at the end of the
    transition to 'operational' state".  The spec has the module
    calibrating until enough samples are gathered and [finish_calibration()]
    is called, and operational from then on. *)
Inductive NavigationState : Type := kCalibrating | kReady | kOperational.

(** What the module does that the other side of the barrier can tell. *)
Inductive NavigationEvent : Type :=
| Operational               (* [state_] becomes operational *)
| NavigationBarrierWait.    (* [post_calibration_barrier_.wait()] *)

(** Modelled from the spec: the result, the state afterwards and the calls
    made, as the header documents them. *)
Definition finishCalibration (st : NavigationState)
  : bool * NavigationState * list NavigationEvent :=
  match st with
  | kReady => (true, kOperational, [Operational; NavigationBarrierWait])
  | _ => (false, st, [])
  end.

(** Modelled from the spec: what the navigation thread does that bears on
    the barrier: it gathers the calibration samples, and it calls
    [finishCalibration]. *)
Inductive NavigationStep : Type :=
| Calibrated            (* the last calibration sample needed is in *)
| FinishCalibration.

Definition navigation_step (c : NavigationStep) (st : NavigationState)
  : NavigationState * list NavigationEvent :=
  match c with
  | Calibrated => (match st with kCalibrating => kReady | _ => st end, [])
  | FinishCalibration => let '(_, st', calls) := finishCalibration st in (st', calls)
  end.

Fixpoint navigation_run (steps : list NavigationStep) (st : NavigationState)
  : NavigationState * list NavigationEvent :=
  match steps with
  | [] => (st, [])
  | c :: later =>
      let (st1, t1) := navigation_step c st in
      let (st2, t2) := navigation_run later st1 in
      (st2, t1 ++ t2)
  end.

Definition is_NavigationBarrierWait (e : NavigationEvent) : bool :=
  match e with NavigationBarrierWait => true | _ => false end.

(** ** Both threads *)

(** The calls of the two threads in the order they are made. *)
Inductive Step : Type :=
| ByMotors (e : Event)
| ByNavigation (e : NavigationEvent).

Fixpoint motors_part (g : list Step) : list Event :=
  match g with
  | [] => []
  | ByMotors e :: g' => e :: motors_part g'
  | ByNavigation _ :: g' => motors_part g'
  end.

Fixpoint navigation_part (g : list Step) : list NavigationEvent :=
  match g with
  | [] => []
  | ByMotors _ :: g' => navigation_part g'
  | ByNavigation e :: g' => e :: navigation_part g'
  end.

(** Modelled from the spec: the barrier is a rendezvous of the two threads
    ("N-party rendezvous released when navigation calibration completes").
    A thread that has called [wait()] makes its next call only once the
    other thread has called [wait()] too; [motors_waited] and
    [navigation_waited] tell who has. *)
Fixpoint respects_barrier (motors_waited navigation_waited : bool) (g : list Step)
  : bool :=
  match g with
  | [] => true
  | ByMotors e :: g' =>
      implb motors_waited navigation_waited
      && respects_barrier (motors_waited || is_BarrierWait e) navigation_waited g'
  | ByNavigation e :: g' =>
      implb navigation_waited motors_waited
      && respects_barrier motors_waited
           (navigation_waited || is_NavigationBarrierWait e) g'
  end.

(** ** The claim in the specification's words *)

(** "the motor controller waits on the post-calibration barrier exactly
    once ... before any target velocity is sent" *)
Definition spec_waits_once_first (motors : list Event) : Prop :=
  List.length (filter is_BarrierWait motors) = 1%nat
  /\ forall before v after,
       motors = before ++ SendTargetVelocity v :: after -> In BarrierWait before.

(** "the barrier is hit exactly twice per run (once by Navigation via
    finishCalibration, once by the Motor Controller)" *)
Definition spec_hit_twice (motors : list Event) (navigation : list NavigationEvent)
  : Prop :=
  List.length (filter is_BarrierWait motors) = 1%nat
  /\ List.length (filter is_NavigationBarrierWait navigation) = 1%nat.

End Rendezvous.

(* ====================================================================== *)
(** * Sensor aggregator: construction and the loop over several turns *)
(* ====================================================================== *)

Module Aggregator.
Import Data Sensors.

(** [Main::Main], its last two statements: [old_sensors_ = sensors_;
    old_batteries_ = batteries_;].  [sensors] and [batteries] are what the
    two buffers hold when the managers have been configured. *)
Definition constructor (sensors : Data.Sensors) (batteries : Data.Batteries) : Main :=
  mkMain sensors sensors batteries batteries.

(** The device managers write into [sensors_] and [batteries_] through the
    pointers they were configured with.  [store] puts into the two buffers
    what they hold when a turn of the loop starts. *)
Definition store (now : Data.Sensors * Data.Batteries) (m : Main) : Main :=
  mkMain (fst now) (old_sensors_ m) (snd now) (old_batteries_ m).

Section WithBatteryCount.

Variable kNumLPBatteries : nat.

(** [Main::run]: one turn of [while (1)] per element of [feed], the buffers
    holding that element during the turn. *)
Fixpoint run (feed : list (Data.Sensors * Data.Batteries)) (m : Main)
  : Main * list Event :=
  match feed with
  | [] => (m, [])
  | now :: later =>
      let (m1, e1) := run_cycle kNumLPBatteries (store now m) in
      let (m2, e2) := run later m1 in
      (m2, e1 ++ e2)
  end.

End WithBatteryCount.

(** What the device managers can reach: [Main::Main] hands [&sensors_.imu]
    to the IMU manager, [&sensors_.proxi_front] and [&sensors_.proxi_back]
    to the two proximity managers and [&batteries_.low_power_batteries] to
    the battery manager; no other part of the worker leaves the object.
    [written] is the worker after the managers have stored new readings. *)
Definition written (imus : list Imu) (front back : DataPoint (list Z))
    (low_power : list Battery) (m : Main) : Main :=
  mkMain (mkSensors imus front back (stripe_cnt (sensors_ m)))
         (old_sensors_ m)
         (mkBatteries low_power (high_power_batteries (batteries_ m)))
         (old_batteries_ m).

(** The workers there can be: as constructed, after the managers have
    written, after a turn of [run]. *)
Inductive reachable (kNumLPBatteries : nat) : Main -> Prop :=
| reachable_constructed sensors batteries :
    reachable kNumLPBatteries (constructor sensors batteries)
| reachable_written imus front back low_power m :
    reachable kNumLPBatteries m ->
    reachable kNumLPBatteries (written imus front back low_power m)
| reachable_cycle m :
    reachable kNumLPBatteries m ->
    reachable kNumLPBatteries (fst (run_cycle kNumLPBatteries m)).

(** The snapshots written to the registry, in order. *)
Fixpoint published_sensors (tr : list Event) : list Data.Sensors :=
  match tr with
  | [] => []
  | SetSensorsData s :: tr' => s :: published_sensors tr'
  | _ :: tr' => published_sensors tr'
  end.

Fixpoint published_batteries (tr : list Event) : list Data.Batteries :=
  match tr with
  | [] => []
  | SetBatteryData b :: tr' => b :: published_batteries tr'
  | _ :: tr' => published_batteries tr'
  end.

(** The test of [updateImu() || updateProxi()] between two snapshots. *)
Definition sensors_changed (old new : Data.Sensors) : Prop :=
  (forall i, (i < kNumImus)%nat -> imu_ts old i <> imu_ts new i)
  \/ (timestamp (proxi_front old) <> timestamp (proxi_front new)
      /\ timestamp (proxi_back old) <> timestamp (proxi_back new)).

(** The test of [updateBattery()] between two snapshots. *)
Definition batteries_changed (kNumLPBatteries : nat) (old new : Data.Batteries) : Prop :=
  exists i, (i < kNumLPBatteries)%nat /\ battery_differs (lp_at old i) (lp_at new i).

End Aggregator.

(* ====================================================================== *)
(** * Fake batteries ([sensors/fake_batteries.cpp]) *)
(* ====================================================================== *)

Module FakeBatteries.
Import Data.

(** The members the constructor initialises (the reference to the registry
    is left out: no method of the file uses it). *)
Record t : Type := mk
  { is_started_      : bool;
    is_high_voltage_ : bool;
    voltage_         : Z;
    current_         : Z;
    temperature_     : Z }.

(** [FakeBatteries::FakeBatteries(log, is_high_voltage, is_nominal)] *)
Definition constructor (is_high_voltage is_nominal : bool) : t :=
  mk false is_high_voltage 1100 200 30.

(** [FakeBatteries::getData]: writes three members of [*battery]. *)
Definition getData (f : t) (battery : Battery) : Battery :=
  if is_high_voltage_ f
  then mkBattery (voltage_ f) (current_ f) (temperature_ f) (charge battery)
  else mkBattery 170 200 (temperature_ f) (charge battery).

(** [FakeBatteries::isOnline] *)
Definition isOnline (f : t) : bool := true.

End FakeBatteries.

(* ====================================================================== *)
(** * Concrete inputs used by the examples below *)
(* ====================================================================== *)

Module Samples.
Import Data.

Definition imu_taken_at (t : N) : Imu :=
  mkImu (mkDataPoint t zeroVector) (mkDataPoint t zeroVector).

Definition bank_taken_at (t : N) : DataPoint (list Z) :=
  mkDataPoint t (repeat 0 kNumProximities).

Definition sensors_at (imu_times : list N) (front back : N) : Data.Sensors :=
  mkSensors (map imu_taken_at imu_times) (bank_taken_at front) (bank_taken_at back)
            (mkDataPoint 0%N 0).

Definition battery_24V : Battery := mkBattery 24 5 30 90.
Definition battery_25V : Battery := mkBattery 25 5 30 90.
Definition steady_batteries : Data.Batteries :=
  mkBatteries [battery_24V; battery_24V] [battery_24V].

(** Every IMU has a new reading, neither proximity bank has. *)
Definition imus_only : Sensors.Main :=
  Sensors.mkMain (sensors_at [1; 1; 1; 1; 1; 1; 1; 1]%N 0 0)
                 (sensors_at [0; 0; 0; 0; 0; 0; 0; 0]%N 0 0)
                 steady_batteries steady_batteries.

(** IMU number 3 is stuck, the seven others and both banks moved on. *)
Definition imu3_frozen : Sensors.Main :=
  Sensors.mkMain (sensors_at [6; 6; 6; 5; 6; 6; 6; 6]%N 6 6)
                 (sensors_at [5; 5; 5; 5; 5; 5; 5; 5]%N 5 5)
                 steady_batteries steady_batteries.


(** A worker whose two low-power slots hold, in both buffers, readings of a
    high-voltage fake battery (slot 0) and of a low-voltage one (slot 1). *)
Definition fake_fed : Sensors.Main :=
  let hv := FakeBatteries.getData (FakeBatteries.constructor true true) zeroBattery in
  let lv := FakeBatteries.getData (FakeBatteries.constructor false true) zeroBattery in
  Sensors.mkMain (sensors_at [0; 0; 0; 0; 0; 0; 0; 0]%N 0 0)
                 (sensors_at [0; 0; 0; 0; 0; 0; 0; 0]%N 0 0)
                 (mkBatteries [hv; lv] []) (mkBatteries [hv; lv] []).

Import MotorControl.

Definition still : NavigationData := mkNavigationData 0 0 0 0.

(** The pod is braking after a critical failure; the wheels report 300 rpm
    twice and stand still from the third answer on. *)
Definition spinning_down : Env :=
  mkEnv (fun _ => mkStateMachineData State.kEmergencyBraking true)
        (fun _ => still)
        (fun _ => false)
        (fun k => if (k <? 2)%nat
                  then MotorVelocity.mk 300 300 300 300
                  else MotorVelocity.mk 0 0 0 0)
        (fun _ => MotorTorque.mk 0 0 0 0)
        zeroMotors.

(** The pod is braking; one wheel after the other is the last one still
    turning (wheel 1 at the first answer, wheel 4 at the fourth), and all
    four stand still from the fifth answer on.  The torques differ from
    wheel to wheel. *)
Definition coasting : Env :=
  mkEnv (fun _ => mkStateMachineData State.kEmergencyBraking false)
        (fun _ => still)
        (fun _ => false)
        (fun k => match k with
                  | 0%nat => MotorVelocity.mk 300 0 0 0
                  | 1%nat => MotorVelocity.mk 0 200 0 0
                  | 2%nat => MotorVelocity.mk 0 0 100 0
                  | 3%nat => MotorVelocity.mk 0 0 0 50
                  | _ => MotorVelocity.mk 0 0 0 0
                  end)
        (fun k => MotorTorque.mk 4 3 2 (Z.of_nat k))
        zeroMotors.

(** The pod stays in [Accelerating] and nothing fails. *)
Definition launching : Env :=
  mkEnv (fun _ => mkStateMachineData State.kAccelerating false)
        (fun _ => still)
        (fun _ => false)
        (fun _ => MotorVelocity.mk 100 100 100 100)
        (fun _ => MotorTorque.mk 0 0 0 0)
        zeroMotors.

(** The pod is accelerating and the communicator reports a failure at every
    health check. *)
Definition failing : Env :=
  mkEnv (fun _ => mkStateMachineData State.kAccelerating false)
        (fun _ => still)
        (fun _ => true)
        (fun _ => MotorVelocity.mk 0 0 0 0)
        (fun _ => MotorTorque.mk 0 0 0 0)
        zeroMotors.

(** The state machine has left Accelerating for Decelerating; nothing
    fails. *)
Definition cruise_reached : Env :=
  mkEnv (fun _ => mkStateMachineData State.kDecelerating false)
        (fun _ => still)
        (fun _ => false)
        (fun _ => MotorVelocity.mk 100 100 100 100)
        (fun _ => MotorTorque.mk 0 0 0 0)
        zeroMotors.

(** A worker whose target velocity is 100 * 21474836, 47 below the largest
    [int32_t]. *)
Definition near_overflow : Sys :=
  mkSys (set_target_velocity_ 2147483600 (me blank)) (reads blank).

(** A worker right after [updateMotorFailure]. *)
Definition failed_worker : Sys := final (updateMotorFailure launching blank).

(** A worker that has just read that the pod accelerates and has not yet
    been in the accelerating handler. *)
Definition first_launch : Sys := MotorSpec.state_read launching blank.

(** The worker enters the accelerating handler, waits, and takes one turn
    of its loop; navigation becomes operational and waits while the worker
    is held at the barrier. *)
Definition meeting : list Rendezvous.Step :=
  Rendezvous.ByMotors BarrierWait
  :: Rendezvous.ByNavigation Rendezvous.Operational
  :: Rendezvous.ByNavigation Rendezvous.NavigationBarrierWait
  :: map Rendezvous.ByMotors (tl (trace (accelerateMotors 1 launching first_launch))).

End Samples.

(* ====================================================================== *)
(** * Sensor aggregator: when a cycle publishes *)
(* ====================================================================== *)

Module SensorsFacts.
Import Data Sensors.

Lemma updateImu_from_true (todo i : nat) (m : Main) :
  updateImu_from todo i m = true <->
  forall j, (i <= j < i + todo)%nat ->
            imu_ts (old_sensors_ m) j <> imu_ts (sensors_ m) j.
Proof.
  revert i; induction todo as [|todo IH]; intro i; simpl.
  - split; [intros _ j Hj; lia | reflexivity].
  - destruct (N.eqb_spec (imu_ts (old_sensors_ m) i) (imu_ts (sensors_ m) i)) as [E|E].
    + split; [discriminate|]. intro H. exfalso. apply (H i); [lia | exact E].
    + rewrite IH. split; intros H j Hj.
      * destruct (Nat.eq_dec j i) as [->|]; [exact E | apply H; lia].
      * apply H; lia.
Qed.

Lemma updateImu_true (m : Main) :
  updateImu m = true <->
  forall i, (i < kNumImus)%nat -> imu_ts (old_sensors_ m) i <> imu_ts (sensors_ m) i.
Proof.
  unfold updateImu. rewrite updateImu_from_true.
  split; intros H j Hj; apply H; lia.
Qed.

Lemma updateProxi_true (m : Main) :
  updateProxi m = true <->
  timestamp (proxi_front (old_sensors_ m)) <> timestamp (proxi_front (sensors_ m))
  /\ timestamp (proxi_back (old_sensors_ m)) <> timestamp (proxi_back (sensors_ m)).
Proof.
  unfold updateProxi.
  destruct (N.eqb_spec (timestamp (proxi_front (old_sensors_ m)))
                       (timestamp (proxi_front (sensors_ m))));
    destruct (N.eqb_spec (timestamp (proxi_back (old_sensors_ m)))
                         (timestamp (proxi_back (sensors_ m))));
    intuition congruence.
Qed.

Lemma battery_differs_test (a b : Battery) :
  negb (voltage a =? voltage b) || negb (temperature a =? temperature b) = true
  <-> battery_differs a b.
Proof.
  unfold battery_differs.
  destruct (Z.eqb_spec (voltage a) (voltage b));
    destruct (Z.eqb_spec (temperature a) (temperature b)); simpl;
    intuition congruence.
Qed.

Lemma updateBattery_from_true (todo i : nat) (m : Main) :
  updateBattery_from todo i m = true <->
  exists j, (i <= j < i + todo)%nat
            /\ battery_differs (lp_at (old_batteries_ m) j) (lp_at (batteries_ m) j).
Proof.
  revert i; induction todo as [|todo IH]; intro i; simpl.
  - split; [discriminate | intros (j & Hj & _); lia].
  - pose proof (battery_differs_test (lp_at (old_batteries_ m) i)
                                     (lp_at (batteries_ m) i)) as T.
    destruct (negb (voltage (lp_at (old_batteries_ m) i)
                    =? voltage (lp_at (batteries_ m) i))
              || negb (temperature (lp_at (old_batteries_ m) i)
                       =? temperature (lp_at (batteries_ m) i))).
    + split; [intros _ | reflexivity].
      exists i. split; [lia | apply T; reflexivity].
    + rewrite IH. split; intros (j & Hj & D).
      * exists j. split; [lia | exact D].
      * exists j. split; [|exact D].
        destruct (Nat.eq_dec j i) as [->|]; [|lia].
        apply T in D. discriminate.
Qed.

Lemma updateBattery_true (k : nat) (m : Main) :
  updateBattery k m = true <->
  exists i, (i < k)%nat
            /\ battery_differs (lp_at (old_batteries_ m) i) (lp_at (batteries_ m) i).
Proof.
  unfold updateBattery. rewrite updateBattery_from_true.
  split; intros (j & Hj & D); exists j; (split; [lia | exact D]).
Qed.

(** The battery test reads the battery buffers only. *)
Lemma updateBattery_from_buffers (todo i : nat) (m m' : Main) :
  batteries_ m' = batteries_ m -> old_batteries_ m' = old_batteries_ m ->
  updateBattery_from todo i m' = updateBattery_from todo i m.
Proof.
  intros E1 E2. revert i; induction todo as [|todo IH]; intro i; simpl.
  - reflexivity.
  - rewrite E1, E2, IH. reflexivity.
Qed.

Lemma sensors_published_test (k : nat) (m : Main) :
  sensors_published k m = updateImu m || updateProxi m.
Proof.
  unfold sensors_published, run_cycle, publish_sensors, publish_batteries.
  destruct (updateImu m || updateProxi m); simpl.
  - destruct (updateBattery k _); reflexivity.
  - destruct (updateBattery k m); reflexivity.
Qed.

Lemma batteries_published_test (k : nat) (m : Main) :
  batteries_published k m = updateBattery k m.
Proof.
  unfold batteries_published, run_cycle, publish_sensors, publish_batteries.
  destruct (updateImu m || updateProxi m); simpl.
  - unfold updateBattery.
    rewrite (updateBattery_from_buffers k 0 m) by reflexivity.
    fold (updateBattery k m). destruct (updateBattery k m); reflexivity.
  - destruct (updateBattery k m); reflexivity.
Qed.

(** C4: at a cycle where all eight IMU timestamps moved from 0 to 1 and
    neither proximity bank moved, [updateImu()] is true and [updateProxi()]
    is false, and the worker writes the Sensors snapshot to the registry
    all the same, although not both proximity banks advanced: the test of
    [run] joins the two with [||], while the comment above it reads "only
    when all the imu and proxi values are different". *)
Theorem sensors_published_on_imus_alone :
  updateImu Samples.imus_only = true
  /\ updateProxi Samples.imus_only = false
  /\ sensors_published 2 Samples.imus_only = true
  /\ In (SetSensorsData (sensors_ Samples.imus_only))
        (snd (run_cycle 2 Samples.imus_only))
  /\ ~ spec_sensors_updated Samples.imus_only.
Proof.
  split; [reflexivity|]. split; [reflexivity|]. split; [reflexivity|].
  split; [left; reflexivity|].
  intros (_ & F & _). unfold front_advanced, advanced in F. simpl in F. lia.
Qed.

(** C5: when exactly one of the eight IMUs kept its acceleration timestamp
    and both proximity banks' timestamps advanced, the cycle still publishes
    the Sensors snapshot, and what it publishes is the current buffer. *)
Theorem stuck_imu_does_not_block (kNumLPBatteries : nat) (m : Main) (stuck : nat) :
  (stuck < kNumImus)%nat ->
  imu_ts (old_sensors_ m) stuck = imu_ts (sensors_ m) stuck ->
  (forall i, (i < kNumImus)%nat -> i <> stuck -> imu_advanced m i) ->
  front_advanced m ->
  back_advanced m ->
  sensors_published kNumLPBatteries m = true
  /\ In (SetSensorsData (sensors_ m)) (snd (run_cycle kNumLPBatteries m)).
Proof.
  intros _ _ _ F B.
  assert (P : updateProxi m = true).
  { apply updateProxi_true. unfold front_advanced, back_advanced, advanced in *.
    split; lia. }
  split.
  - rewrite sensors_published_test, P. apply orb_true_r.
  - unfold run_cycle, publish_sensors. rewrite P, orb_true_r.
    destruct (publish_batteries _ _). simpl. left. reflexivity.
Qed.

Lemma stuck_imu_does_not_block_example :
  sensors_published 2 Samples.imu3_frozen = true
  /\ In (SetSensorsData (sensors_ Samples.imu3_frozen))
        (snd (run_cycle 2 Samples.imu3_frozen)).
Proof.
  apply (stuck_imu_does_not_block 2 Samples.imu3_frozen 3).
  - unfold kNumImus. lia.
  - reflexivity.
  - intros i Hi Hne. unfold kNumImus in Hi. unfold imu_advanced, advanced.
    do 8 (destruct i as [|i];
          [first [reflexivity | exfalso; apply Hne; reflexivity]|]).
    lia.
  - reflexivity.
  - reflexivity.
Defined.

(** The high-power set is the same in both battery buffers of every
    worker there can be: the constructor copies [batteries_] whole, a turn
    of [run] copies it whole or not at all, and the only manager the worker
    has writes the low-power set. *)
Lemma high_power_set_never_written (k : nat) (m : Main) :
  Aggregator.reachable k m ->
  high_power_batteries (batteries_ m) = high_power_batteries (old_batteries_ m).
Proof.
  induction 1 as [sensors batteries | imus front back low_power m _ IH | m _ IH].
  - reflexivity.
  - exact IH.
  - unfold run_cycle, publish_sensors, publish_batteries.
    destruct (updateImu m || updateProxi m);
      match goal with |- context [updateBattery k ?x] =>
        destruct (updateBattery k x) end;
      first [reflexivity | exact IH].
Qed.

Lemma same_high_power_set (m : Main) (i : nat) :
  high_power_batteries (batteries_ m) = high_power_batteries (old_batteries_ m) ->
  ~ battery_differs (hp_at (old_batteries_ m) i) (hp_at (batteries_ m) i).
Proof.
  intros HP D. unfold hp_at in D. rewrite HP in D.
  destruct D as [D|D]; apply D; reflexivity.
Qed.



(** The same over the life of a worker. *)
Lemma reachable_batteries_published_on_any_change (k : nat) (m : Main) :
  Aggregator.reachable k m ->
  List.length (low_power_batteries (batteries_ m)) = k ->
  batteries_published k m = true <-> spec_batteries_updated m.
Proof.
  intros R Len. rewrite batteries_published_test, updateBattery_true.
  unfold spec_batteries_updated. rewrite Len. split.
  - intro L. left. exact L.
  - intros [L | (i & _ & D)]; [exact L|].
    exfalso. exact (same_high_power_set m i (high_power_set_never_written k m R) D).
Qed.

End SensorsFacts.

(* ====================================================================== *)
(** * Navigation: emergency braking distance *)
(* ====================================================================== *)

Module NavigationFacts.
Import Navigation.
Local Open Scope Q_scope.

Lemma braking_distance_exact (velocity : Q) :
  getEmergencyBrakingDistance velocity == velocity * velocity / 48.
Proof.
  unfold getEmergencyBrakingDistance, kEmergencyDeceleration. field.
Qed.

Lemma square_nonneg (v : Q) : 0 <= v * v.
Proof. nra. Qed.

(** C8: the emergency braking distance is velocity^2 / (2 * 24), that is
    velocity^2 / 48, within a relative error of 1e-6. *)
Theorem braking_distance_formula (velocity : Q) :
  getEmergencyBrakingDistance velocity
    == velocity * velocity / (2 * kEmergencyDeceleration)
  /\ 2 * kEmergencyDeceleration == 48
  /\ within_relative_error (1 # 1000000)
       (getEmergencyBrakingDistance velocity) (velocity * velocity / 48).
Proof.
  split; [reflexivity|]. split; [reflexivity|].
  unfold within_relative_error.
  assert (E : getEmergencyBrakingDistance velocity - velocity * velocity / 48 == 0).
  { rewrite braking_distance_exact. ring. }
  rewrite E. simpl (Qabs 0).
  apply Qmult_le_0_compat; [discriminate | apply Qabs_nonneg].
Qed.

(** The bound survives rounding: when the product and the quotient are each
    rounded with a relative error of at most 2^-24 (binary32, no underflow
    or overflow at these two operations), the result is still within 1e-6
    of velocity^2 / 48. *)
Lemma braking_distance_rounded (fl : Q -> Q) (velocity : Q) :
  within_relative_error unit_roundoff
    (fl (velocity * velocity)) (velocity * velocity) ->
  within_relative_error unit_roundoff
    (fl (fl (velocity * velocity) / 48)) (fl (velocity * velocity) / 48) ->
  within_relative_error (1 # 1000000)
    (getEmergencyBrakingDistance_rounded fl velocity) (velocity * velocity / 48).
Proof.
  unfold within_relative_error, getEmergencyBrakingDistance_rounded,
    kEmergencyDeceleration, unit_roundoff.
  pose proof (square_nonneg velocity) as Hsq.
  set (a := velocity * velocity) in *.
  change (2 * 24) with 48.
  intros H1 H2.
  set (x1 := fl a) in *. set (x2 := fl (x1 / 48)) in *.
  assert (Ea : Qabs a == a) by (apply Qabs_pos; exact Hsq).
  rewrite Ea in H1.
  apply Qabs_Qle_condition in H1.
  assert (Hd : x1 / 48 == x1 * (1 # 48)) by (field).
  assert (Ha48 : a / 48 == a * (1 # 48)) by (field).
  assert (Hx1 : 0 <= x1) by (change (2 ^ 24)%positive with 16777216%positive in H1; lra).
  assert (Eq : Qabs (x1 / 48) == x1 * (1 # 48)).
  { rewrite Hd. apply Qabs_pos. lra. }
  rewrite Eq in H2. rewrite Hd in H2.
  apply Qabs_Qle_condition in H2.
  assert (Ey : Qabs (a / 48) == a * (1 # 48)).
  { rewrite Ha48. apply Qabs_pos. lra. }
  rewrite Ey. rewrite Ha48.
  apply Qabs_Qle_condition.
  change (2 ^ 24)%positive with 16777216%positive in *.
  split; lra.
Qed.

Lemma braking_distance_rounded_example :
  within_relative_error (1 # 1000000)
    (getEmergencyBrakingDistance_rounded (fun x => x) 12) (12 * 12 / 48).
Proof.
  apply (braking_distance_rounded (fun x => x) 12);
    unfold within_relative_error; vm_compute; discriminate.
Defined.

End NavigationFacts.

(* ====================================================================== *)
(** * Motor controller: reasoning about the worker *)
(* ====================================================================== *)

Module MotorFacts.
Import MotorControl MotorSpec.
Local Open Scope motor_scope.

(** ** Outcomes of a sequence *)

Lemma trace_bind {A B} (m : M A) (k : A -> M B) env s :
  trace (bind m k env s) =
  match m env s with
  | Done a s1 t1 => t1 ++ trace (k a env s1)
  | Timeout _ t1 => t1
  end.
Proof.
  unfold bind. destruct (m env s) as [a s1 t1|s1 t1]; [|reflexivity].
  destruct (k a env s1); reflexivity.
Qed.

Lemma final_bind {A B} (m : M A) (k : A -> M B) env s :
  final (bind m k env s) =
  match m env s with
  | Done a s1 _ => final (k a env s1)
  | Timeout s1 _ => s1
  end.
Proof.
  unfold bind. destruct (m env s) as [a s1 t1|s1 t1]; [|reflexivity].
  destruct (k a env s1); reflexivity.
Qed.

Lemma bind_Done {A B} (m : M A) (k : A -> M B) env s a s1 t1 :
  m env s = Done a s1 t1 ->
  bind m k env s =
  match k a env s1 with
  | Done b s2 t2 => Done b s2 (t1 ++ t2)
  | Timeout s2 t2 => Timeout s2 (t1 ++ t2)
  end.
Proof. intro E. unfold bind. rewrite E. reflexivity. Qed.

Lemma trace_after {A} t1 (o : Outcome A) :
  trace match o with
        | Done b s2 t2 => Done b s2 (t1 ++ t2)
        | Timeout s2 t2 => Timeout s2 (t1 ++ t2)
        end = t1 ++ trace o.
Proof. destruct o; reflexivity. Qed.

Lemma final_after {A} t1 (o : Outcome A) :
  final match o with
        | Done b s2 t2 => Done b s2 (t1 ++ t2)
        | Timeout s2 t2 => Timeout s2 (t1 ++ t2)
        end = final o.
Proof. destruct o; reflexivity. Qed.

(** ** The two handlers as a prefix followed by their loop *)

Lemma accelerateMotors_unfold n env s :
  accelerateMotors n env s =
  match while_state State.kAccelerating (accelerate_body n) n env (rendezvoused s) with
  | Done b s2 t2 =>
      Done b s2 ((if nav_calib_ (me s) then [] else [BarrierWait])
                 ++ Log INFO "Motor State: Accelerating" :: t2)
  | Timeout s2 t2 =>
      Timeout s2 ((if nav_calib_ (me s) then [] else [BarrierWait])
                  ++ Log INFO "Motor State: Accelerating" :: t2)
  end.
Proof.
  unfold accelerateMotors, post_calibration_barrier_wait, log, rendezvoused.
  unfold bind at 1. cbn [self].
  destruct (nav_calib_ (me s)); unfold bind at 1;
    cbn [negb when ret bind emit modify];
    match goal with |- context [while_state ?a ?b ?c ?d ?e] =>
      destruct (while_state a b c d e) end; reflexivity.
Qed.

Lemma accelerateMotors_trace n env s :
  trace (accelerateMotors n env s)
  = (if nav_calib_ (me s) then [] else [BarrierWait])
    ++ Log INFO "Motor State: Accelerating"
    :: trace (while_state State.kAccelerating (accelerate_body n) n env
                          (rendezvoused s)).
Proof.
  rewrite accelerateMotors_unfold.
  destruct (while_state _ _ _ _ _); reflexivity.
Qed.

Lemma accelerateMotors_final n env s :
  final (accelerateMotors n env s)
  = final (while_state State.kAccelerating (accelerate_body n) n env (rendezvoused s)).
Proof.
  rewrite accelerateMotors_unfold.
  destruct (while_state _ _ _ _ _); reflexivity.
Qed.

Lemma decelerateMotors_trace n env s :
  trace (decelerateMotors n env s)
  = Log INFO "Motor State: Deccelerating"
    :: trace (while_state State.kDecelerating (decelerate_body n) n env s).
Proof.
  unfold decelerateMotors, log. rewrite trace_bind. reflexivity.
Qed.

(** ** Properties that compose along a run

    [R s t s'] relates the state before, the events emitted and the state
    after; a reflexive and transitive [R] holds of a program as soon as it
    holds of its steps. *)

Section Composing.

Variable R : Sys -> list Event -> Sys -> Prop.
Hypothesis R_refl : forall s, R s [] s.
Hypothesis R_trans :
  forall s1 t1 s2 t2 s3, R s1 t1 s2 -> R s2 t2 s3 -> R s1 (t1 ++ t2) s3.

Lemma obeys_ret {A} (a : A) : obeys R (ret a).
Proof. intros env s. apply R_refl. Qed.

Lemma obeys_self : obeys R self.
Proof. intros env s. apply R_refl. Qed.

Lemma obeys_out_of_iterations {A} : obeys R (@out_of_iterations A).
Proof. intros env s. apply R_refl. Qed.

Lemma obeys_bind {A B} (m : M A) (k : A -> M B) :
  obeys R m -> (forall a, obeys R (k a)) -> obeys R (bind m k).
Proof.
  intros Hm Hk env s. rewrite trace_bind, final_bind.
  specialize (Hm env s). destruct (m env s) as [a s1 t1|s1 t1]; simpl in *.
  - eapply R_trans; [exact Hm | apply Hk].
  - exact Hm.
Qed.

Lemma obeys_when (b : bool) (m : M unit) : obeys R m -> obeys R (when b m).
Proof. intro H. destruct b; [exact H | apply obeys_ret]. Qed.

Lemma obeys_stop_loop (n : nat) : obeys R stop_body -> obeys R (stop_loop n).
Proof.
  intro Hb. induction n as [|n IH]; simpl.
  - apply obeys_bind; [apply obeys_self | intro m].
    destruct (negb (all_motors_stopped_ m));
      [apply obeys_out_of_iterations | apply obeys_ret].
  - apply obeys_bind; [apply obeys_self | intro m].
    destruct (negb (all_motors_stopped_ m)); [|apply obeys_ret].
    apply obeys_bind; [exact Hb | intros _; exact IH].
Qed.

Lemma obeys_while_state (st : State.t) (body : M Flow) (k : nat) :
  obeys R body -> obeys R (while_state st body k).
Proof.
  intro Hb. induction k as [|k IH]; simpl.
  - apply obeys_bind; [apply obeys_self | intro m].
    destruct (State.eqb _ _); [apply obeys_out_of_iterations | apply obeys_ret].
  - apply obeys_bind; [apply obeys_self | intro m].
    destruct (State.eqb _ _); [|apply obeys_ret].
    apply obeys_bind; [exact Hb | intros [|]; [exact IH | apply obeys_ret]].
Qed.

Lemma obeys_run_loop (n k : nat) : obeys R (run_body n) -> obeys R (run_loop n k).
Proof.
  intro Hb. induction k as [|k IH]; simpl.
  - apply obeys_bind; [apply obeys_self | intro m].
    destruct (run_ m); [apply obeys_out_of_iterations | apply obeys_ret].
  - apply obeys_bind; [apply obeys_self | intro m].
    destruct (run_ m); [|apply obeys_ret].
    apply obeys_bind; [exact Hb | intros _; exact IH].
Qed.

(** What is left to check of [R]: each primitive step.  The rendezvous of
    [accelerateMotors] is kept apart, every other step is covered by the
    hypotheses on [emit], [modify] and the reads. *)
Hypothesis R_emit : forall e, e <> BarrierWait -> obeys R (emit e).
Hypothesis R_modify :
  forall f,
    (forall m, nav_calib_ (f m) = nav_calib_ m) ->
    (forall m, motor_failure_ m = true -> motor_failure_ (f m) = true) ->
    obeys R (modify f).
Hypothesis R_rendezvous :
  forall s, nav_calib_ (me s) = false -> R s [BarrierWait] (rendezvoused s).
Hypothesis R_getStateMachineData : obeys R getStateMachineData.
Hypothesis R_getNavigationData : obeys R getNavigationData.
Hypothesis R_getMotorData : obeys R getMotorData.
Hypothesis R_getFailure : obeys R getFailure.
Hypothesis R_requestActualVelocity : obeys R requestActualVelocity.
Hypothesis R_requestActualTorque : obeys R requestActualTorque.

Ltac step :=
  first
    [ apply obeys_ret | apply obeys_self
    | apply R_emit; discriminate
    | apply R_modify; [intro; reflexivity | intros ? L; first [exact L | reflexivity]]
    | apply R_getStateMachineData | apply R_getNavigationData
    | apply R_getMotorData | apply R_getFailure
    | apply R_requestActualVelocity | apply R_requestActualTorque
    | apply obeys_when
    | apply obeys_bind; [|intro]
    | match goal with
      | |- obeys R (if ?b then _ else _) => destruct b
      | |- obeys R (match ?c with Continue => _ | Break => _ end) => destruct c
      end ].

Lemma obeys_updateMotorData : obeys R updateMotorData.
Proof. unfold updateMotorData, setMotorData. repeat step. Qed.

Lemma obeys_updateMotorFailure : obeys R updateMotorFailure.
Proof. unfold updateMotorFailure, setMotorData, log. repeat step. Qed.

Lemma obeys_stop_body : obeys R stop_body.
Proof.
  unfold stop_body, log.
  apply obeys_bind; [step | intros _].
  apply obeys_bind; [apply obeys_updateMotorData | intros _].
  repeat step.
Qed.

Lemma obeys_stopMotors (n : nat) : obeys R (stopMotors n).
Proof.
  unfold stopMotors, quickStopAll, enterPreOperational.
  apply obeys_bind; [step | intros _].
  apply obeys_bind; [apply obeys_stop_loop, obeys_stop_body | intros _].
  apply obeys_bind; [apply obeys_updateMotorData | intros _; step].
Qed.

Ltac methods :=
  repeat first
    [ apply obeys_updateMotorFailure | apply obeys_updateMotorData
    | apply obeys_stopMotors | step ].

Lemma obeys_initMotors : obeys R initMotors.
Proof.
  unfold initMotors, registerControllers, configureControllers, setMotorData, log.
  methods.
Qed.

Lemma obeys_prepareMotors : obeys R prepareMotors.
Proof.
  unfold prepareMotors, communicator_prepareMotors, healthCheck, setMotorData, log.
  methods.
Qed.

Lemma obeys_accelerate_body (n : nat) : obeys R (accelerate_body n).
Proof.
  unfold accelerate_body, accelerationVelocity, accelerationTorque, healthCheck,
    sendTargetVelocity, sendTargetTorque, log.
  methods.
Qed.

Lemma obeys_decelerate_body (n : nat) : obeys R (decelerate_body n).
Proof.
  unfold decelerate_body, decelerationVelocity, decelerationTorque, healthCheck,
    sendTargetVelocity, sendTargetTorque, log.
  methods.
Qed.

Lemma obeys_accelerateMotors (n : nat) : obeys R (accelerateMotors n).
Proof.
  intros env s. rewrite accelerateMotors_trace, accelerateMotors_final.
  apply R_trans with (s2 := rendezvoused s).
  - destruct (nav_calib_ (me s)) eqn:L.
    + unfold rendezvoused. rewrite L. apply R_refl.
    + apply R_rendezvous, L.
  - apply (R_trans _ [Log INFO "Motor State: Accelerating"] (rendezvoused s)).
    + refine (R_emit (Log INFO "Motor State: Accelerating") _ env (rendezvoused s)).
      discriminate.
    + apply obeys_while_state, obeys_accelerate_body.
Qed.

Lemma obeys_decelerateMotors (n : nat) : obeys R (decelerateMotors n).
Proof.
  unfold decelerateMotors, log.
  apply obeys_bind; [step | intros _].
  apply obeys_while_state, obeys_decelerate_body.
Qed.

Lemma obeys_run_body (n : nat) : obeys R (run_body n).
Proof.
  unfold run_body.
  apply obeys_bind; [apply R_getStateMachineData | intro sm].
  apply obeys_bind; [step | intros _].
  apply obeys_bind; [apply obeys_self | intro m].
  destruct (current_state (state_ m));
    unfold yield, servicePropulsion, enterPreOperational;
    first [ apply obeys_accelerateMotors | apply obeys_decelerateMotors
          | apply obeys_stopMotors
          | apply obeys_bind;
            [first [apply obeys_initMotors | apply obeys_prepareMotors]
            | intros _; step]
          | methods ].
Qed.

Lemma obeys_run (n : nat) : obeys R (run n).
Proof.
  unfold run, log.
  apply obeys_bind; [step | intros _].
  apply obeys_run_loop, obeys_run_body.
Qed.

Lemma obeys_constructor : obeys R constructor.
Proof. unfold constructor, setMotorData. methods. Qed.

Lemma obeys_lifetime (n : nat) : obeys R (lifetime n).
Proof.
  unfold lifetime.
  apply obeys_bind; [apply obeys_constructor | intros _; apply obeys_run].
Qed.

End Composing.


(** ** Straight-line methods *)

Lemma updateMotorData_runs env s :
  updateMotorData env s =
  Done tt (refreshed env s)
       (refresh_events env (n_velocity (reads s)) (n_torque (reads s))
                       (motor_data_ (me s))).
Proof. reflexivity. Qed.



(** ** What [stopMotors] is made of *)

Lemma only_stop_calls_refl s : only_stop_calls s [] s.
Proof. constructor. Qed.

Lemma only_stop_calls_trans s1 t1 s2 t2 s3 :
  only_stop_calls s1 t1 s2 -> only_stop_calls s2 t2 s3 ->
  only_stop_calls s1 (t1 ++ t2) s3.
Proof. unfold only_stop_calls. intros H1 H2. apply Forall_app. split; assumption. Qed.

Lemma stopMotors_calls n env s :
  Forall (fun e => is_stop_call e = true) (trace (stopMotors n env s)).
Proof.
  revert env s.
  change (obeys only_stop_calls (stopMotors n)).
  assert (U : obeys only_stop_calls updateMotorData).
  { intros env s. rewrite updateMotorData_runs. repeat constructor. }
  assert (E : forall e, is_stop_call e = true -> obeys only_stop_calls (emit e)).
  { intros e He env s. repeat constructor. exact He. }
  assert (B : forall {A B} (m : M A) (k : A -> M B),
             obeys only_stop_calls m -> (forall a, obeys only_stop_calls (k a)) ->
             obeys only_stop_calls (bind m k)).
  { intros A B. exact (obeys_bind only_stop_calls only_stop_calls_trans). }
  unfold stopMotors, quickStopAll, enterPreOperational.
  apply B; [apply E; reflexivity | intros _].
  apply B; [|intros _; apply B; [exact U | intros _; apply E; reflexivity]].
  apply (obeys_stop_loop only_stop_calls only_stop_calls_refl only_stop_calls_trans).
  unfold stop_body, log.
  apply B; [apply E; reflexivity | intros _].
  apply B; [exact U | intros _].
  apply B; [intros env s; constructor | intro m].
  destruct (all_zero (motor_velocity_ m)); simpl; [|intros env s; constructor].
  apply B; [intros env s; constructor | intros _; apply E; reflexivity].
Qed.

Lemma stop_calls_no_setpoint t :
  Forall (fun e => is_stop_call e = true) t -> existsb is_setpoint t = false.
Proof.
  induction 1 as [|e t He _ IH]; [reflexivity|]. simpl. rewrite IH.
  destruct e; try discriminate; reflexivity.
Qed.

Lemma stop_calls_no_state_read t :
  Forall (fun e => is_stop_call e = true) t ->
  existsb is_GetStateMachineData t = false.
Proof.
  induction 1 as [|e t He _ IH]; [reflexivity|]. simpl. rewrite IH.
  destruct e; try discriminate; reflexivity.
Qed.

Lemma stop_calls_no_wait t :
  Forall (fun e => is_stop_call e = true) t -> ~ In BarrierWait t.
Proof.
  intros H I. rewrite Forall_forall in H. specialize (H _ I). discriminate.
Qed.

Lemma stop_calls_no_failure_read t b :
  Forall (fun e => is_stop_call e = true) t -> ~ In (GetFailure b) t.
Proof.
  intros H I. rewrite Forall_forall in H. specialize (H _ I). discriminate.
Qed.

Lemma stop_calls_sent_velocities t :
  Forall (fun e => is_stop_call e = true) t -> sent_velocities t = [].
Proof.
  induction 1 as [|e t He _ IH]; [reflexivity|].
  destruct e; try discriminate; exact IH.
Qed.

Lemma stop_calls_sent_torques t :
  Forall (fun e => is_stop_call e = true) t -> sent_torques t = [].
Proof.
  induction 1 as [|e t He _ IH]; [reflexivity|].
  destruct e; try discriminate; exact IH.
Qed.


(** ** The stopping loop *)

Lemma stop_loop_unfold n env s :
  stop_loop n env s =
  if negb (all_motors_stopped_ (me s))
  then match n with
       | O => Timeout s []
       | S n' =>
           match stop_body env s with
           | Done _ s1 t1 =>
               match stop_loop n' env s1 with
               | Done b s2 t2 => Done b s2 (t1 ++ t2)
               | Timeout s2 t2 => Timeout s2 (t1 ++ t2)
               end
           | Timeout s1 t1 => Timeout s1 t1
           end
       end
  else Done tt s [].
Proof.
  destruct n; simpl; unfold bind at 1; simpl;
    destruct (negb (all_motors_stopped_ (me s))); try reflexivity.
  unfold bind at 1. destruct (stop_body env s) as [[] s1 t1|s1 t1]; [|reflexivity].
  destruct (stop_loop n env s1); reflexivity.
Qed.

Lemma stop_body_runs env s :
  stop_body env s =
  if all_zero (reported env s 0)
  then Done tt (latched (refreshed env s))
            (stopping_events env s 0 ++ [Log INFO "Motor State: Stopped"])
  else Done tt (refreshed env s) (stopping_events env s 0).
Proof.
  unfold stop_body, reported. cbn.
  destruct (all_zero (actual_velocity env (n_velocity (reads s)))); reflexivity.
Qed.

Lemma stopping_events_shift env s j :
  stopping_events env (refreshed env s) j = stopping_events env s (S j).
Proof.
  unfold stopping_events, refreshed. simpl. rewrite <- !plus_n_Sm. reflexivity.
Qed.

Lemma reported_shift env s j :
  reported env (refreshed env s) j = reported env s (S j).
Proof. unfold reported, refreshed. simpl. rewrite <- plus_n_Sm. reflexivity. Qed.

Lemma stopping_turns_shift env s k :
  flat_map (stopping_events env (refreshed env s)) (seq 0 k)
  = flat_map (stopping_events env s) (seq 1 k).
Proof.
  rewrite <- seq_shift.
  induction (seq 0 k) as [|j l IH]; cbn [flat_map map]; [reflexivity|].
  rewrite IH, stopping_events_shift. reflexivity.
Qed.

Lemma all_zero_standing v : all_zero v = true <-> standing v.
Proof.
  unfold all_zero, standing. rewrite !andb_true_iff, !Z.eqb_eq. tauto.
Qed.

Lemma all_zero_moving v : all_zero v = false <-> ~ standing v.
Proof.
  rewrite <- all_zero_standing. destruct (all_zero v); intuition congruence.
Qed.

Lemma stop_loop_converges k : forall n env s,
  all_motors_stopped_ (me s) = false ->
  (forall j, (j < k)%nat -> all_zero (reported env s j) = false) ->
  all_zero (reported env s k) = true ->
  (k < n)%nat ->
  exists s',
    stop_loop n env s
    = Done tt s' (flat_map (stopping_events env s) (seq 0 (S k))
                  ++ [Log INFO "Motor State: Stopped"])
    /\ all_motors_stopped_ (me s') = true
    /\ n_velocity (reads s') = (S k + n_velocity (reads s))%nat
    /\ n_torque (reads s') = (S k + n_torque (reads s))%nat
    /\ Motors.module_status (motor_data_ (me s'))
       = Motors.module_status (motor_data_ (me s)).
Proof.
  induction k as [|k IH]; intros n env s L NZ Z Hn;
    (destruct n as [|n]; [lia|]); rewrite stop_loop_unfold, L; simpl negb; cbv iota;
    rewrite stop_body_runs.
  - rewrite Z. exists (latched (refreshed env s)).
    rewrite stop_loop_unfold. simpl.
    repeat split; reflexivity.
  - rewrite (NZ 0%nat) by lia.
    destruct (IH n env (refreshed env s)) as (s' & E & L' & V & Q & St).
    + exact L.
    + intros j Hj. rewrite reported_shift. apply NZ. lia.
    + rewrite reported_shift. exact Z.
    + lia.
    + exists s'. rewrite E, stopping_turns_shift.
      split; [|split; [exact L'|split; [|split]]].
      * rewrite app_assoc. reflexivity.
      * rewrite V. simpl. lia.
      * rewrite Q. simpl. lia.
      * rewrite St. reflexivity.
Qed.

Lemma stop_loop_diverges n : forall env s,
  all_motors_stopped_ (me s) = false ->
  (forall j, (j < n)%nat -> all_zero (reported env s j) = false) ->
  exists s' tr,
    stop_loop n env s = Timeout s' tr /\ all_motors_stopped_ (me s') = false.
Proof.
  induction n as [|n IH]; intros env s L NZ; rewrite stop_loop_unfold, L; simpl negb;
    cbv iota.
  - exists s, []. split; [reflexivity | exact L].
  - rewrite stop_body_runs, (NZ 0%nat) by lia.
    destruct (IH env (refreshed env s)) as (s' & tr & E & L').
    + exact L.
    + intros j Hj. rewrite reported_shift. apply NZ. lia.
    + rewrite E. exists s', (stopping_events env s 0 ++ tr). split; [reflexivity | exact L'].
Qed.

Lemma stopMotors_unfold n env s :
  stopMotors n env s =
  match stop_loop n env s with
  | Done _ s1 t1 =>
      Done tt (refreshed env s1)
           (QuickStopAll
            :: t1 ++ refresh_events env (n_velocity (reads s1)) (n_torque (reads s1))
                                    (motor_data_ (me s1))
            ++ [EnterPreOperational])
  | Timeout s1 t1 => Timeout s1 (QuickStopAll :: t1)
  end.
Proof.
  unfold stopMotors, quickStopAll, enterPreOperational.
  unfold bind at 1. cbn [emit]. unfold bind at 1.
  destruct (stop_loop n env s) as [[] s1 t1|s1 t1]; reflexivity.
Qed.

(** C1: called with [all_motors_stopped_] unset, [stopMotors] first issues
    quick-stop, then turn after turn requests the actual velocities and
    torques and writes to the registry the motor data made of exactly the
    four velocities and four torques just reported; the latch is set at the
    first turn in which all four reported velocities are zero (and at no
    earlier one, as long as any one wheel still turns), after which the
    motor data is published once more and the controllers are sent to
    pre-operational.  Whatever the controllers answer, no rendezvous is
    made. *)
Theorem stopMotors_procedure env s n k :
  all_motors_stopped_ (me s) = false ->
  (forall j, (j < k)%nat -> ~ standing (reported env s j)) ->
  standing (reported env s k) ->
  (k < n)%nat ->
  (exists s', stopMotors n env s = Done tt s' (stop_procedure env s k)
              /\ all_motors_stopped_ (me s') = true)
  /\ (forall n', (n' <= k)%nat ->
                 returned (stopMotors n' env s) = false
                 /\ all_motors_stopped_ (me (final (stopMotors n' env s))) = false)
  /\ (forall n' env' s0, ~ In BarrierWait (trace (stopMotors n' env' s0))).
Proof.
  intros L NZ Z Hn.
  assert (NZ' : forall j, (j < k)%nat -> all_zero (reported env s j) = false).
  { intros j Hj. apply all_zero_moving, NZ, Hj. }
  apply all_zero_standing in Z.
  split; [|split].
  - destruct (stop_loop_converges k n env s L NZ' Z Hn) as (s1 & E & L1 & V & Q & St).
    exists (refreshed env s1). split.
    + rewrite stopMotors_unfold, E. unfold stop_procedure, refresh_events.
      rewrite V, Q, St, <- app_assoc.
      reflexivity.
    + simpl. exact L1.
  - intros n' Hn'.
    destruct (stop_loop_diverges n' env s L) as (s' & tr & E & L').
    { intros j Hj. apply NZ'. lia. }
    rewrite stopMotors_unfold, E. simpl. split; [reflexivity | exact L'].
  - intros n' env' s0. apply stop_calls_no_wait, stopMotors_calls.
Qed.


(** ** One turn of the accelerating and of the decelerating loop *)

Lemma int32_in_range x : INT32_MIN <= x <= INT32_MAX -> int32 x = x.
Proof.
  unfold INT32_MIN, INT32_MAX, int32, wrap. intro H.
  change (2 ^ (32 - 1)) with 2147483648. change (2 ^ 32) with 4294967296.
  change (2 ^ 31) with 2147483648 in H.
  rewrite Z.mod_small by lia. lia.
Qed.

(** From here on [int32] is a symbol: the turns below are traced with the
    wrap left folded. *)
Opaque int32.

Lemma accelerate_body_critical n env s :
  critical_failure (next_state env s) = true ->
  trace (accelerate_body n env s)
  = GetStateMachineData (next_state env s)
    :: trace (stopMotors n env (state_read env s))
  /\ continues (accelerate_body n env s) = false.
Proof.
  intro C. unfold accelerate_body, next_state in *.
  cbn -[stopMotors int32]. rewrite C. cbn -[stopMotors int32].
  fold (next_state env s). fold (state_read env s). unfold bind.
  destruct (stopMotors n env (state_read env s)) as [[] s2 t2|s2 t2]; simpl;
    rewrite ?app_nil_r; split; reflexivity.
Qed.

Lemma accelerate_body_failed n env s :
  critical_failure (next_state env s) = false ->
  next_failure env s = true ->
  (exists md s1,
      trace (accelerate_body n env s)
      = GetStateMachineData (next_state env s) :: HealthCheck :: GetFailure true
        :: Log ERR "Motor State: MOTOR FAILURE" :: SetMotorData md
        :: trace (stopMotors n env s1))
  /\ continues (accelerate_body n env s) = false.
Proof.
  intros C F. unfold accelerate_body, next_state, next_failure in *.
  cbn -[stopMotors int32]. rewrite C. cbn -[stopMotors int32].
  rewrite F. cbn -[stopMotors int32]. unfold bind.
  match goal with |- context [stopMotors n env ?s1] =>
    destruct (stopMotors n env s1) as [[] s2 t2|s2 t2] eqn:E end;
    (split; [do 2 eexists; rewrite E|]); simpl; rewrite ?app_nil_r; reflexivity.
Qed.

(** The part of a turn after the two checks. *)
Lemma accelerate_step_runs env s :
  (log DBG2 "Motor State: Accelerating" ;;
   nav_ <- getNavigationData ;;
   v <- accelerationVelocity (velocity nav_) ;;
   modify (set_target_velocity_ v) ;;
   q <- accelerationTorque (velocity nav_) ;;
   modify (set_target_torque_ q) ;;
   m <- self ;;
   sendTargetVelocity (target_velocity_ m) ;;
   sendTargetTorque (target_torque_ m) ;;
   updateMotorData ;;
   ret Continue) env s
  = Done Continue
      (refreshed env
         (mkSys (set_target_torque_ 0
                   (set_target_velocity_ (int32 (target_velocity_ (me s) + 100))
                      (set_target_velocity_ (int32 (target_velocity_ (me s) + 100))
                         (me s))))
                (mkReads (n_state (reads s)) (S (n_nav (reads s))) (n_failure (reads s))
                         (n_velocity (reads s)) (n_torque (reads s)))))
      (Log DBG2 "Motor State: Accelerating"
       :: GetNavigationData (navigation_data env (n_nav (reads s)))
       :: SendTargetVelocity (int32 (target_velocity_ (me s) + 100))
       :: SendTargetTorque 0
       :: refresh_events env (n_velocity (reads s)) (n_torque (reads s))
                         (motor_data_ (me s))).
Proof. reflexivity. Qed.

Lemma accelerate_body_steps n env s :
  critical_failure (next_state env s) = false ->
  next_failure env s = false ->
  exists s',
    accelerate_body n env s
    = Done Continue s'
        (GetStateMachineData (next_state env s) :: HealthCheck :: GetFailure false
         :: Log DBG2 "Motor State: Accelerating"
         :: GetNavigationData (navigation_data env (n_nav (reads s)))
         :: SendTargetVelocity (int32 (target_velocity_ (me s) + 100))
         :: SendTargetTorque 0
         :: refresh_events env (n_velocity (reads s)) (n_torque (reads s))
                           (motor_data_ (me s)))
    /\ target_velocity_ (me s') = int32 (target_velocity_ (me s) + 100)
    /\ state_ (me s') = next_state env s
    /\ motor_failure_ (me s') = motor_failure_ (me s)
    /\ nav_calib_ (me s') = nav_calib_ (me s).
Proof.
  intros C F. unfold accelerate_body.
  unfold bind at 1. cbn [getStateMachineData].
  unfold bind at 1. cbn [modify me reads].
  unfold bind at 1. cbn [self me reads state_ set_state_].
  fold (next_state env s). rewrite C.
  unfold bind at 1. cbn [healthCheck emit].
  unfold bind at 1. cbn [getFailure me reads n_failure].
  fold (next_failure env s). rewrite F.
  rewrite accelerate_step_runs. eexists. split; [reflexivity|]. repeat split.
Qed.

Lemma decelerate_body_critical n env s :
  critical_failure (next_state env s) = true ->
  trace (decelerate_body n env s)
  = GetStateMachineData (next_state env s)
    :: trace (stopMotors n env (state_read env s))
  /\ continues (decelerate_body n env s) = false.
Proof.
  intro C. unfold decelerate_body, next_state in *.
  cbn -[stopMotors int32]. rewrite C. cbn -[stopMotors int32].
  fold (next_state env s). fold (state_read env s). unfold bind.
  destruct (stopMotors n env (state_read env s)) as [[] s2 t2|s2 t2]; simpl;
    rewrite ?app_nil_r; split; reflexivity.
Qed.

Lemma decelerate_body_failed n env s :
  critical_failure (next_state env s) = false ->
  next_failure env s = true ->
  (exists md s1,
      trace (decelerate_body n env s)
      = GetStateMachineData (next_state env s) :: HealthCheck :: GetFailure true
        :: Log ERR "Motor State: MOTOR FAILURE" :: SetMotorData md
        :: trace (stopMotors n env s1))
  /\ continues (decelerate_body n env s) = false.
Proof.
  intros C F. unfold decelerate_body, next_state, next_failure in *.
  cbn -[stopMotors int32]. rewrite C. cbn -[stopMotors int32].
  rewrite F. cbn -[stopMotors int32]. unfold bind.
  match goal with |- context [stopMotors n env ?s1] =>
    destruct (stopMotors n env s1) as [[] s2 t2|s2 t2] eqn:E end;
    (split; [do 2 eexists; rewrite E|]); simpl; rewrite ?app_nil_r; reflexivity.
Qed.

(** The part of a turn after the two checks. *)
Lemma decelerate_step_runs env s :
  (log DBG2 "Motor State: Deccelerating" ;;
   nav_ <- getNavigationData ;;
   v <- decelerationVelocity (velocity nav_) ;;
   modify (set_target_velocity_ v) ;;
   q <- decelerationTorque (velocity nav_) ;;
   modify (set_target_torque_ q) ;;
   m <- self ;;
   sendTargetVelocity (target_velocity_ m) ;;
   sendTargetTorque (target_torque_ m) ;;
   updateMotorData ;;
   ret Continue) env s
  = Done Continue
      (refreshed env
         (mkSys (set_target_torque_ 0
                   (set_target_velocity_ (int32 (target_velocity_ (me s) - 100))
                      (set_target_velocity_ (int32 (target_velocity_ (me s) - 100))
                         (me s))))
                (mkReads (n_state (reads s)) (S (n_nav (reads s))) (n_failure (reads s))
                         (n_velocity (reads s)) (n_torque (reads s)))))
      (Log DBG2 "Motor State: Deccelerating"
       :: GetNavigationData (navigation_data env (n_nav (reads s)))
       :: SendTargetVelocity (int32 (target_velocity_ (me s) - 100))
       :: SendTargetTorque 0
       :: refresh_events env (n_velocity (reads s)) (n_torque (reads s))
                         (motor_data_ (me s))).
Proof. reflexivity. Qed.

Lemma decelerate_body_steps n env s :
  critical_failure (next_state env s) = false ->
  next_failure env s = false ->
  exists s',
    decelerate_body n env s
    = Done Continue s'
        (GetStateMachineData (next_state env s) :: HealthCheck :: GetFailure false
         :: Log DBG2 "Motor State: Deccelerating"
         :: GetNavigationData (navigation_data env (n_nav (reads s)))
         :: SendTargetVelocity (int32 (target_velocity_ (me s) - 100))
         :: SendTargetTorque 0
         :: refresh_events env (n_velocity (reads s)) (n_torque (reads s))
                           (motor_data_ (me s)))
    /\ target_velocity_ (me s') = int32 (target_velocity_ (me s) - 100)
    /\ state_ (me s') = next_state env s
    /\ motor_failure_ (me s') = motor_failure_ (me s)
    /\ nav_calib_ (me s') = nav_calib_ (me s).
Proof.
  intros C F. unfold decelerate_body.
  unfold bind at 1. cbn [getStateMachineData].
  unfold bind at 1. cbn [modify me reads].
  unfold bind at 1. cbn [self me reads state_ set_state_].
  fold (next_state env s). rewrite C.
  unfold bind at 1. cbn [healthCheck emit].
  unfold bind at 1. cbn [getFailure me reads n_failure].
  fold (next_failure env s). rewrite F.
  rewrite decelerate_step_runs. eexists. split; [reflexivity|]. repeat split.
Qed.


(** ** Loops on the pod state *)

Lemma while_state_unfold st body k env s :
  while_state st body k env s =
  if State.eqb (current_state (state_ (me s))) st
  then match k with
       | O => Timeout s []
       | S k' =>
           match body env s with
           | Done Continue s1 t1 =>
               match while_state st body k' env s1 with
               | Done b s2 t2 => Done b s2 (t1 ++ t2)
               | Timeout s2 t2 => Timeout s2 (t1 ++ t2)
               end
           | Done Break s1 t1 => Done tt s1 t1
           | Timeout s1 t1 => Timeout s1 t1
           end
       end
  else Done tt s [].
Proof.
  destruct k; simpl; unfold bind at 1; simpl;
    destruct (State.eqb (current_state (state_ (me s))) st); try reflexivity.
  unfold bind at 1. destruct (body env s) as [[|] s1 t1|s1 t1]; try reflexivity.
  - destruct (while_state st body k env s1); reflexivity.
  - unfold ret. rewrite app_nil_r. reflexivity.
Qed.

Lemma State_eqb_eq a b : State.eqb a b = true -> a = b.
Proof. destruct a, b; (reflexivity || discriminate). Qed.

(** The calls of the loop are those of its turns. *)
Lemma while_state_turns st body k : forall env s,
  trace (while_state st body k env s) = calls_of (turns_taken st body k env s).
Proof.
  unfold calls_of.
  induction k as [|k IH]; intros env s; rewrite while_state_unfold; cbn [turns_taken];
    destruct (State.eqb (current_state (state_ (me s))) st); try reflexivity.
  cbn [flat_map snd].
  destruct (body env s) as [[|] s1 t1|s1 t1]; cbn [trace flat_map];
    rewrite ?app_nil_r; try reflexivity.
  rewrite trace_after, IH. reflexivity.
Qed.

(** Every turn taken is a run of the body from a system that passed the
    test, and a turn that did not fall through is the last one. *)
Lemma turns_taken_split st body k : forall env s before si o after,
  turns_taken st body k env s = before ++ (si, o) :: after ->
  current_state (state_ (me si)) = st
  /\ o = body env si
  /\ (continues o = false -> after = []).
Proof.
  induction k as [|k IH]; intros env s before si o after Eq; cbn [turns_taken] in Eq.
  - destruct before; discriminate.
  - destruct (State.eqb (current_state (state_ (me s))) st) eqn:T;
      [|destruct before; discriminate].
    destruct before as [|x before]; cbn [app] in Eq.
    + injection Eq as <- <- <-.
      split; [apply State_eqb_eq, T|]. split; [reflexivity|].
      destruct (body env s) as [[|] ? ?|? ?]; [discriminate | reflexivity | reflexivity].
    + injection Eq as _ Eq.
      destruct (body env s) as [[|] s1 t1|s1 t1];
        [exact (IH _ _ _ _ _ _ Eq) | destruct before; discriminate
        | destruct before; discriminate].
Qed.

(** The loop takes a turn whenever its test holds and its bound allows. *)
Lemma first_turn_taken st body k env s :
  current_state (state_ (me s)) = st ->
  hd_error (turns_taken st body (S k) env s) = Some (s, body env s).
Proof.
  intros <-. cbn [turns_taken].
  destruct (current_state (state_ (me s))); reflexivity.
Qed.

Lemma launch_takes_three_turns :
  map (fun turn => continues (snd turn))
      (turns_taken State.kAccelerating (accelerate_body 3) 3 Samples.launching
                   Samples.first_launch)
  = [true; true; true].
Proof. vm_compute. reflexivity. Qed.

(** What a single turn of the accelerating loop guarantees. *)
Lemma accelerate_body_guarded n env s :
  exists rest,
    trace (accelerate_body n env s) = GetStateMachineData (next_state env s) :: rest
    /\ existsb is_GetStateMachineData rest = false
    /\ (critical_failure (next_state env s) = true ->
        rest = trace (stopMotors n env (state_read env s))
        /\ existsb is_setpoint rest = false
        /\ continues (accelerate_body n env s) = false)
    /\ (existsb is_setpoint rest = true ->
        critical_failure (next_state env s) = false
        /\ next_failure env s = false
        /\ In (GetFailure false) rest /\ ~ In (GetFailure true) rest).
Proof.
  destruct (critical_failure (next_state env s)) eqn:C.
  - destruct (accelerate_body_critical n env s C) as [T K].
    exists (trace (stopMotors n env (state_read env s))).
    pose proof (stopMotors_calls n env (state_read env s)) as A.
    split; [exact T|]. split; [apply stop_calls_no_state_read, A|].
    split.
    + intros _. split; [reflexivity|].
      split; [apply stop_calls_no_setpoint, A | exact K].
    + rewrite (stop_calls_no_setpoint _ A). discriminate.
  - destruct (next_failure env s) eqn:F.
    + destruct (accelerate_body_failed n env s C F) as [(md & s1 & T) K].
      pose proof (stopMotors_calls n env s1) as A.
      eexists. split; [exact T|]. simpl.
      rewrite (stop_calls_no_state_read _ A), (stop_calls_no_setpoint _ A).
      split; [reflexivity|]. split; discriminate.
    + destruct (accelerate_body_steps n env s C F) as (s' & E & _).
      eexists. split; [rewrite E; reflexivity|].
      split; [reflexivity|]. split; [discriminate|].
      intros _. split; [reflexivity|]. split; [reflexivity|]. split; [simpl; tauto|].
      simpl. intros [H|[H|[H|[H|[H|[H|[H|[H|[H|[]]]]]]]]]]; discriminate.
Qed.

(** C2: the calls of the accelerating handler are an optional rendezvous,
    a log line, and then the calls of the turns its loop takes, each turn a
    run of the loop body entered with [state_] Accelerating.  Every turn
    starts by re-reading the state-machine snapshot from the registry (and
    reads it only then).  If that snapshot has [critical_failure] set, the
    rest of the turn is [stopMotors], run on the worker that stored the
    snapshot: no target velocity or torque is sent, and the turn is the
    last one of the loop.  A turn that sends a setpoint read
    [critical_failure] false and was answered "no failure" after its health
    check. *)
Theorem accelerating_turns_guarded n env s :
  trace (accelerateMotors n env s)
  = (if nav_calib_ (me s) then [] else [BarrierWait])
    ++ Log INFO "Motor State: Accelerating"
    :: calls_of (turns_taken State.kAccelerating (accelerate_body n) n env
                             (rendezvoused s))
  /\ forall before si o after,
       turns_taken State.kAccelerating (accelerate_body n) n env (rendezvoused s)
       = before ++ (si, o) :: after ->
       current_state (state_ (me si)) = State.kAccelerating
       /\ o = accelerate_body n env si
       /\ exists rest,
            trace o = GetStateMachineData (state_machine_data env (n_state (reads si)))
                      :: rest
            /\ existsb is_GetStateMachineData rest = false
            /\ (critical_failure (state_machine_data env (n_state (reads si))) = true ->
                rest = trace (stopMotors n env (state_read env si))
                /\ existsb is_setpoint rest = false
                /\ after = [])
            /\ (existsb is_setpoint rest = true ->
                critical_failure (state_machine_data env (n_state (reads si))) = false
                /\ failure env (n_failure (reads si)) = false
                /\ In (GetFailure false) rest /\ ~ In (GetFailure true) rest).
Proof.
  split.
  - rewrite accelerateMotors_trace, while_state_turns. reflexivity.
  - intros before si o after Eq.
    destruct (turns_taken_split _ _ _ _ _ _ _ _ _ Eq) as (A & -> & Last).
    split; [exact A|]. split; [reflexivity|].
    destruct (accelerate_body_guarded n env si) as (rest & E & G & Crit & Sent).
    exists rest. split; [exact E|]. split; [exact G|]. split; [|exact Sent].
    intro C. destruct (Crit C) as (Q & N & K). auto.
Qed.


(** ** Target velocities: the constant step *)

Lemma sent_velocities_app t1 t2 :
  sent_velocities (t1 ++ t2) = sent_velocities t1 ++ sent_velocities t2.
Proof.
  induction t1 as [|e t1 IH]; [reflexivity|].
  destruct e; simpl; rewrite ?IH; reflexivity.
Qed.

Lemma sent_torques_app t1 t2 :
  sent_torques (t1 ++ t2) = sent_torques t1 ++ sent_torques t2.
Proof.
  induction t1 as [|e t1 IH]; [reflexivity|].
  destruct e; simpl; rewrite ?IH; reflexivity.
Qed.

Lemma progression_S start step len :
  progression start step (S len)
  = (start + step) :: progression (start + step) step len.
Proof.
  unfold progression. rewrite <- cons_seq, <- seq_shift, map_cons, map_map.
  f_equal; [lia|]. apply map_ext. intro j. rewrite !Nat2Z.inj_succ. lia.
Qed.

Lemma progression_above start step len :
  0 < step -> Forall (fun x => start < x) (progression start step len).
Proof.
  intro P. unfold progression. apply Forall_forall. intros x I.
  apply in_map_iff in I. destruct I as (j & <- & _). nia.
Qed.

Lemma progression_below start step len :
  step < 0 -> Forall (fun x => start > x) (progression start step len).
Proof.
  intro P. unfold progression. apply Forall_forall. intros x I.
  apply in_map_iff in I. destruct I as (j & <- & _). nia.
Qed.

Lemma progression_increasing step len : forall start,
  0 < step -> StronglySorted Z.lt (progression start step len).
Proof.
  induction len as [|len IH]; intros start P.
  - constructor.
  - rewrite progression_S. constructor; [apply IH, P|].
    apply progression_above, P.
Qed.

Lemma progression_decreasing step len : forall start,
  step < 0 -> StronglySorted Z.gt (progression start step len).
Proof.
  induction len as [|len IH]; intros start P.
  - constructor.
  - rewrite progression_S. constructor; [apply IH, P|].
    apply progression_below, P.
Qed.

Lemma while_state_trace st body k env s :
  trace (while_state st body k env s) =
  if State.eqb (current_state (state_ (me s))) st
  then match k with
       | O => []
       | S k' =>
           match body env s with
           | Done Continue s1 t1 => t1 ++ trace (while_state st body k' env s1)
           | Done Break _ t1 => t1
           | Timeout _ t1 => t1
           end
       end
  else [].
Proof.
  rewrite while_state_unfold.
  destruct (State.eqb (current_state (state_ (me s))) st); [|reflexivity].
  destruct k; [reflexivity|].
  destruct (body env s) as [[|] s1 t1|s1 t1]; try reflexivity.
  apply trace_after.
Qed.

Lemma last_turn_trace (o : Outcome Flow) :
  continues o = false ->
  match o with
  | Done Continue s1 t1 => False
  | Done Break _ t1 => t1 = trace o
  | Timeout _ t1 => t1 = trace o
  end.
Proof. destruct o as [[|] ? ?|? ?]; simpl; [discriminate | reflexivity | reflexivity]. Qed.

Lemma accelerating_progression k : forall n env s,
  INT32_MIN <= target_velocity_ (me s) ->
  target_velocity_ (me s) + 100 * Z.of_nat k <= INT32_MAX ->
  exists len,
    (len <= k)%nat
    /\ sent_velocities
         (trace (while_state State.kAccelerating (accelerate_body n) k env s))
       = progression (target_velocity_ (me s)) 100 len.
Proof.
  induction k as [|k IH]; intros n env s Lo Hi; rewrite while_state_trace;
    destruct (State.eqb (current_state (state_ (me s))) State.kAccelerating);
    try (exists 0%nat; split; [lia | reflexivity]).
  destruct (critical_failure (next_state env s)) eqn:C.
  { destruct (accelerate_body_critical n env s C) as [T K].
    pose proof (last_turn_trace _ K) as L.
    exists 0%nat. split; [lia|].
    destruct (accelerate_body n env s) as [[|] ? ?|? ?]; [contradiction| |];
      rewrite L, T; simpl; apply stop_calls_sent_velocities, stopMotors_calls. }
  destruct (next_failure env s) eqn:F.
  { destruct (accelerate_body_failed n env s C F) as [(md & s1 & T) K].
    pose proof (last_turn_trace _ K) as L.
    exists 0%nat. split; [lia|].
    destruct (accelerate_body n env s) as [[|] ? ?|? ?]; [contradiction| |];
      rewrite L, T; simpl; apply stop_calls_sent_velocities, stopMotors_calls. }
  destruct (accelerate_body_steps n env s C F) as (s' & E & V & _).
  assert (I : int32 (target_velocity_ (me s) + 100) = target_velocity_ (me s) + 100).
  { apply int32_in_range. lia. }
  rewrite E, I in *.
  destruct (IH n env s') as (len & Hlen & P); [rewrite V; lia | rewrite V; lia|].
  exists (S len). split; [lia|].
  rewrite progression_S, <- V, <- P. simpl. rewrite V. reflexivity.
Qed.

Lemma decelerating_progression k : forall n env s,
  target_velocity_ (me s) <= INT32_MAX ->
  INT32_MIN <= target_velocity_ (me s) - 100 * Z.of_nat k ->
  exists len,
    (len <= k)%nat
    /\ sent_velocities
         (trace (while_state State.kDecelerating (decelerate_body n) k env s))
       = progression (target_velocity_ (me s)) (-100) len.
Proof.
  induction k as [|k IH]; intros n env s Hi Lo; rewrite while_state_trace;
    destruct (State.eqb (current_state (state_ (me s))) State.kDecelerating);
    try (exists 0%nat; split; [lia | reflexivity]).
  destruct (critical_failure (next_state env s)) eqn:C.
  { destruct (decelerate_body_critical n env s C) as [T K].
    pose proof (last_turn_trace _ K) as L.
    exists 0%nat. split; [lia|].
    destruct (decelerate_body n env s) as [[|] ? ?|? ?]; [contradiction| |];
      rewrite L, T; simpl; apply stop_calls_sent_velocities, stopMotors_calls. }
  destruct (next_failure env s) eqn:F.
  { destruct (decelerate_body_failed n env s C F) as [(md & s1 & T) K].
    pose proof (last_turn_trace _ K) as L.
    exists 0%nat. split; [lia|].
    destruct (decelerate_body n env s) as [[|] ? ?|? ?]; [contradiction| |];
      rewrite L, T; simpl; apply stop_calls_sent_velocities, stopMotors_calls. }
  destruct (decelerate_body_steps n env s C F) as (s' & E & V & _).
  assert (I : int32 (target_velocity_ (me s) - 100) = target_velocity_ (me s) - 100).
  { apply int32_in_range. lia. }
  rewrite E, I in *.
  destruct (IH n env s') as (len & Hlen & P); [rewrite V; lia | rewrite V; lia|].
  exists (S len). split; [lia|].
  rewrite progression_S.
  replace (target_velocity_ (me s) + -100) with (target_velocity_ (me s) - 100) by lia.
  rewrite <- V, <- P. simpl. rewrite V. reflexivity.
Qed.


Lemma accelerating_velocities n env s :
  INT32_MIN <= target_velocity_ (me s) ->
  target_velocity_ (me s) + 100 * Z.of_nat n <= INT32_MAX ->
  exists len,
    sent_velocities (trace (accelerateMotors n env s))
    = progression (target_velocity_ (me s)) 100 len.
Proof.
  intros Lo Hi.
  assert (T : target_velocity_ (me (rendezvoused s)) = target_velocity_ (me s)).
  { unfold rendezvoused. destruct (nav_calib_ (me s)); reflexivity. }
  destruct (accelerating_progression n n env (rendezvoused s)) as (len & _ & P);
    rewrite ?T; try assumption.
  exists len. rewrite accelerateMotors_trace, sent_velocities_app.
  destruct (nav_calib_ (me s)); simpl; rewrite P, T; reflexivity.
Qed.

Lemma decelerating_velocities n env s :
  target_velocity_ (me s) <= INT32_MAX ->
  INT32_MIN <= target_velocity_ (me s) - 100 * Z.of_nat n ->
  exists len,
    sent_velocities (trace (decelerateMotors n env s))
    = progression (target_velocity_ (me s)) (-100) len.
Proof.
  intros Hi Lo.
  destruct (decelerating_progression n n env s Hi Lo) as (len & _ & P).
  exists len. rewrite decelerateMotors_trace. simpl. exact P.
Qed.

Lemma final_while_state_continue st body k env s s1 t1 :
  State.eqb (current_state (state_ (me s))) st = true ->
  body env s = Done Continue s1 t1 ->
  final (while_state st body (S k) env s) = final (while_state st body k env s1).
Proof.
  intros B E. rewrite while_state_unfold, B, E. apply final_after.
Qed.

(** With the pod held in [Accelerating] and no failure, [k] turns of the
    loop raise the stored target velocity by [100 * k]. *)
Lemma accelerating_target k : forall n s,
  current_state (state_ (me s)) = State.kAccelerating ->
  INT32_MIN <= target_velocity_ (me s) ->
  target_velocity_ (me s) + 100 * Z.of_nat k <= INT32_MAX ->
  target_velocity_
    (me (final (while_state State.kAccelerating (accelerate_body n) k
                            Samples.launching s)))
  = target_velocity_ (me s) + 100 * Z.of_nat k.
Proof.
  induction k as [|k IH]; intros n s A Lo Hi.
  - rewrite while_state_unfold, A. simpl. lia.
  - destruct (accelerate_body_steps n Samples.launching s) as (s' & E & V & St & _);
      [reflexivity | reflexivity |].
    assert (B : State.eqb (current_state (state_ (me s))) State.kAccelerating = true)
      by (rewrite A; reflexivity).
    rewrite (final_while_state_continue _ _ _ _ _ _ _ B E).
    rewrite int32_in_range in V by lia.
    rewrite IH; rewrite ?St, ?V; try reflexivity; lia.
Qed.

(** The worker of the example above is not made up: a pod held in
    [Accelerating] for 21474836 turns has that target velocity. *)
Lemma near_overflow_reached :
  target_velocity_
    (me (final (while_state State.kAccelerating (accelerate_body 0)
                  (Z.to_nat 21474836) Samples.launching
                  (state_read Samples.launching blank))))
  = target_velocity_ (me Samples.near_overflow).
Proof.
  rewrite accelerating_target.
  - change (target_velocity_ (me (state_read Samples.launching blank))) with 0.
    change (target_velocity_ (me Samples.near_overflow)) with 2147483600.
    rewrite Z2Nat.id; lia.
  - reflexivity.
  - change (target_velocity_ (me (state_read Samples.launching blank))) with 0.
    unfold INT32_MIN. lia.
  - change (target_velocity_ (me (state_read Samples.launching blank))) with 0.
    rewrite Z2Nat.id by lia. unfold INT32_MAX. lia.
Qed.

(** C7, the claim at a concrete worker: with a stored target velocity of
    2147483600 rpm, [accelerationVelocity] does not return the stored value
    plus 100 (the sum leaves [int32_t]). *)
Lemma acceleration_step_wraps :
  ~ (exists s' tr,
        accelerationVelocity 0 Samples.launching Samples.near_overflow
        = Done (target_velocity_ (me Samples.near_overflow) + 100) s' tr).
Proof. intros (s' & tr & E). vm_compute in E. discriminate. Qed.

(** What it returns there is below the stored target. *)
Lemma wrapped_step_goes_down :
  exists s',
    accelerationVelocity 0 Samples.launching Samples.near_overflow
    = Done (-2147483596) s' []
    /\ -2147483596 < target_velocity_ (me Samples.near_overflow).
Proof. eexists. split; [vm_compute; reflexivity | reflexivity]. Qed.

(** C7 (amended): as long as the sums stay within [int32_t],
    [accelerationVelocity] returns the stored target velocity plus 100 and
    [decelerationVelocity] the stored target minus 100, whatever the measured
    velocity passed; the target velocities sent by one run of the
    accelerating loop then go up by 100 from one turn to the next, hence
    strictly increase, and those of the decelerating loop go down by 100. *)
Theorem constant_step_in_range env s velocity :
  target_in_range s ->
  (target_velocity_ (me s) + 100 <= INT32_MAX ->
   accelerationVelocity velocity env s
   = Done (target_velocity_ (me s) + 100)
          (mkSys (set_target_velocity_ (target_velocity_ (me s) + 100) (me s))
                 (reads s)) [])
  /\ (INT32_MIN <= target_velocity_ (me s) - 100 ->
      decelerationVelocity velocity env s
      = Done (target_velocity_ (me s) - 100)
             (mkSys (set_target_velocity_ (target_velocity_ (me s) - 100) (me s))
                    (reads s)) [])
  /\ (forall n,
        target_velocity_ (me s) + 100 * Z.of_nat n <= INT32_MAX ->
        (exists len, sent_velocities (trace (accelerateMotors n env s))
                     = progression (target_velocity_ (me s)) 100 len)
        /\ StronglySorted Z.lt (sent_velocities (trace (accelerateMotors n env s))))
  /\ (forall n,
        INT32_MIN <= target_velocity_ (me s) - 100 * Z.of_nat n ->
        (exists len, sent_velocities (trace (decelerateMotors n env s))
                     = progression (target_velocity_ (me s)) (-100) len)
        /\ StronglySorted Z.gt (sent_velocities (trace (decelerateMotors n env s)))).
Proof.
  intros [Lo Hi]. split; [|split; [|split]].
  - intro H. unfold accelerationVelocity. cbn -[int32].
    rewrite int32_in_range by lia. reflexivity.
  - intro H. unfold decelerationVelocity. cbn -[int32].
    rewrite int32_in_range by lia. reflexivity.
  - intros n H. destruct (accelerating_velocities n env s Lo H) as (len & P).
    split; [exists len; exact P|]. rewrite P. apply progression_increasing. lia.
  - intros n H. destruct (decelerating_velocities n env s Hi H) as (len & P).
    split; [exists len; exact P|]. rewrite P. apply progression_decreasing. lia.
Qed.

Lemma constant_step_example :
  (target_velocity_ (me blank) + 100 <= INT32_MAX ->
   accelerationVelocity 7 Samples.launching blank
   = Done (target_velocity_ (me blank) + 100)
          (mkSys (set_target_velocity_ (target_velocity_ (me blank) + 100) (me blank))
                 (reads blank)) [])
  /\ (INT32_MIN <= target_velocity_ (me blank) - 100 ->
      decelerationVelocity 7 Samples.launching blank
      = Done (target_velocity_ (me blank) - 100)
             (mkSys (set_target_velocity_ (target_velocity_ (me blank) - 100) (me blank))
                    (reads blank)) [])
  /\ (forall n,
        target_velocity_ (me blank) + 100 * Z.of_nat n <= INT32_MAX ->
        (exists len, sent_velocities (trace (accelerateMotors n Samples.launching blank))
                     = progression (target_velocity_ (me blank)) 100 len)
        /\ StronglySorted Z.lt
             (sent_velocities (trace (accelerateMotors n Samples.launching blank))))
  /\ (forall n,
        INT32_MIN <= target_velocity_ (me blank) - 100 * Z.of_nat n ->
        (exists len, sent_velocities (trace (decelerateMotors n Samples.launching blank))
                     = progression (target_velocity_ (me blank)) (-100) len)
        /\ StronglySorted Z.gt
             (sent_velocities (trace (decelerateMotors n Samples.launching blank)))).
Proof.
  apply (constant_step_in_range Samples.launching blank 7).
  unfold target_in_range, INT32_MIN, INT32_MAX. simpl. lia.
Defined.

(** ** Target torques *)

Lemma torques_zero_refl s : torques_zero s [] s.
Proof. constructor. Qed.

Lemma torques_zero_trans s1 t1 s2 t2 s3 :
  torques_zero s1 t1 s2 -> torques_zero s2 t2 s3 -> torques_zero s1 (t1 ++ t2) s3.
Proof.
  unfold torques_zero. intros H1 H2. rewrite sent_torques_app.
  apply Forall_app. split; assumption.
Qed.

Lemma accelerate_body_torques n : obeys torques_zero (accelerate_body n).
Proof.
  intros env s. unfold torques_zero.
  destruct (critical_failure (next_state env s)) eqn:C.
  { destruct (accelerate_body_critical n env s C) as [T _]. rewrite T. simpl.
    rewrite (stop_calls_sent_torques _ (stopMotors_calls _ _ _)). constructor. }
  destruct (next_failure env s) eqn:F.
  { destruct (accelerate_body_failed n env s C F) as [(md & s1 & T) _]. rewrite T. simpl.
    rewrite (stop_calls_sent_torques _ (stopMotors_calls _ _ _)). constructor. }
  destruct (accelerate_body_steps n env s C F) as (s' & E & _).
  rewrite E. simpl. repeat constructor.
Qed.

Lemma decelerate_body_torques n : obeys torques_zero (decelerate_body n).
Proof.
  intros env s. unfold torques_zero.
  destruct (critical_failure (next_state env s)) eqn:C.
  { destruct (decelerate_body_critical n env s C) as [T _]. rewrite T. simpl.
    rewrite (stop_calls_sent_torques _ (stopMotors_calls _ _ _)). constructor. }
  destruct (next_failure env s) eqn:F.
  { destruct (decelerate_body_failed n env s C F) as [(md & s1 & T) _]. rewrite T. simpl.
    rewrite (stop_calls_sent_torques _ (stopMotors_calls _ _ _)). constructor. }
  destruct (decelerate_body_steps n env s C F) as (s' & E & _).
  rewrite E. simpl. repeat constructor.
Qed.

(** C10: [accelerationTorque] and [decelerationTorque] return 0 for every
    velocity, and every target torque sent over CAN by the accelerating and
    by the decelerating handler is 0. *)
Theorem torque_setpoints_zero n env s velocity :
  accelerationTorque velocity env s = Done 0 s []
  /\ decelerationTorque velocity env s = Done 0 s []
  /\ Forall (fun q => q = 0) (sent_torques (trace (accelerateMotors n env s)))
  /\ Forall (fun q => q = 0) (sent_torques (trace (decelerateMotors n env s))).
Proof.
  split; [reflexivity|]. split; [reflexivity|]. split.
  - rewrite accelerateMotors_trace, sent_torques_app.
    apply Forall_app. split; [destruct (nav_calib_ (me s)); constructor|].
    simpl.
    apply (obeys_while_state torques_zero torques_zero_refl torques_zero_trans
             State.kAccelerating (accelerate_body n) n (accelerate_body_torques n)).
  - rewrite decelerateMotors_trace. simpl.
    apply (obeys_while_state torques_zero torques_zero_refl torques_zero_trans
             State.kDecelerating (decelerate_body n) n (decelerate_body_torques n)).
Qed.


(** ** The failure latch *)

Lemma updateMotorFailure_latches env s :
  motor_failure_ (me (final (updateMotorFailure env s))) = true.
Proof. reflexivity. Qed.

Lemma failure_latch_kept_refl s : failure_latch_kept s [] s.
Proof. intro L. exact L. Qed.

Lemma failure_latch_kept_trans s1 t1 s2 t2 s3 :
  failure_latch_kept s1 t1 s2 -> failure_latch_kept s2 t2 s3 ->
  failure_latch_kept s1 (t1 ++ t2) s3.
Proof. intros H1 H2 L. apply H2, H1, L. Qed.

Lemma failure_latch_kept_in_run_body n : obeys failure_latch_kept (run_body n).
Proof.
  apply obeys_run_body;
    first [ exact failure_latch_kept_refl | exact failure_latch_kept_trans
          | intros e _ env s L; exact L
          | intros f _ Hf env s L; simpl; apply Hf, L
          | intros s C L; unfold rendezvoused; rewrite C; exact L
          | intros env s L; exact L ].
Qed.

Lemma failure_latch_sticky n k env s :
  motor_failure_ (me s) = true ->
  motor_failure_ (me (final (run_loop n k env s))) = true.
Proof.
  exact (obeys_run_loop failure_latch_kept failure_latch_kept_refl
           failure_latch_kept_trans n k (failure_latch_kept_in_run_body n) env s).
Qed.

(** C6: once [motor_failure_] is set, [initMotors] and [prepareMotors]
    return at once: they call nothing on the communicator, publish nothing
    and leave every member as it was; and the latch stays set however long
    the worker keeps running. *)
Theorem failure_latch_disables_setup env s :
  motor_failure_ (me s) = true ->
  initMotors env s = Done tt s []
  /\ prepareMotors env s = Done tt s []
  /\ forall n k, motor_failure_ (me (final (run_loop n k env s))) = true.
Proof.
  intro L. split; [|split].
  - unfold initMotors, bind, self, when. rewrite L, andb_false_r. reflexivity.
  - unfold prepareMotors, bind, self, when. rewrite L, andb_false_r. reflexivity.
  - intros n k. apply failure_latch_sticky, L.
Qed.

Lemma failure_latch_example :
  initMotors Samples.launching Samples.failed_worker
  = Done tt Samples.failed_worker []
  /\ prepareMotors Samples.launching Samples.failed_worker
     = Done tt Samples.failed_worker []
  /\ forall n k,
       motor_failure_
         (me (final (run_loop n k Samples.launching Samples.failed_worker))) = true.
Proof.
  apply (failure_latch_disables_setup Samples.launching Samples.failed_worker).
  reflexivity.
Defined.

Lemma stopMotors_example :
  (exists s', stopMotors 6 Samples.coasting blank
              = Done tt s' (stop_procedure Samples.coasting blank 4)
              /\ all_motors_stopped_ (me s') = true)
  /\ (forall n', (n' <= 4)%nat ->
                 returned (stopMotors n' Samples.coasting blank) = false
                 /\ all_motors_stopped_
                      (me (final (stopMotors n' Samples.coasting blank))) = false)
  /\ (forall n' env' s0, ~ In BarrierWait (trace (stopMotors n' env' s0))).
Proof.
  apply (stopMotors_procedure Samples.coasting blank 6 4).
  - reflexivity.
  - intros j Hj (W1 & W2 & W3 & W4).
    destruct j as [|[|[|[|j]]]]; [discriminate W1 | discriminate W2
                                 | discriminate W3 | discriminate W4 | lia].
  - repeat split.
  - lia.
Defined.

(** ** The rendezvous with navigation, seen from the worker *)

Lemma not_a_wait e : e <> BarrierWait -> is_BarrierWait e = false.
Proof. destruct e; try reflexivity. intro H. exfalso. apply H. reflexivity. Qed.

Lemma barrier_budget_refl s : barrier_budget s [] s.
Proof. unfold barrier_budget. simpl. lia. Qed.

Lemma barrier_budget_trans s1 t1 s2 t2 s3 :
  barrier_budget s1 t1 s2 -> barrier_budget s2 t2 s3 ->
  barrier_budget s1 (t1 ++ t2) s3.
Proof.
  unfold barrier_budget. intros H1 H2. rewrite filter_app, length_app. lia.
Qed.

Lemma barrier_budget_emit e : e <> BarrierWait -> obeys barrier_budget (emit e).
Proof.
  intros He env s. unfold barrier_budget. simpl.
  rewrite (not_a_wait e He). simpl. lia.
Qed.

Lemma barrier_budget_modify f :
  (forall m, nav_calib_ (f m) = nav_calib_ m) -> obeys barrier_budget (modify f).
Proof.
  intros Hf env s. unfold barrier_budget, waits_left. simpl. rewrite Hf. lia.
Qed.

Lemma barrier_budget_rendezvous s :
  nav_calib_ (me s) = false -> barrier_budget s [BarrierWait] (rendezvoused s).
Proof.
  intro C. unfold barrier_budget, waits_left, rendezvoused. rewrite C. simpl. lia.
Qed.

Ltac budget_of_a_read :=
  intros env s; unfold barrier_budget, waits_left; simpl; lia.

Lemma barrier_budget_in_turn n : obeys barrier_budget (accelerate_body n).
Proof.
  apply obeys_accelerate_body;
    first [ exact barrier_budget_refl | exact barrier_budget_trans
          | exact barrier_budget_emit
          | intros f Hf _; exact (barrier_budget_modify f Hf)
          | budget_of_a_read ].
Qed.

Lemma barrier_budget_in_lifetime n : obeys barrier_budget (lifetime n).
Proof.
  apply obeys_lifetime;
    first [ exact barrier_budget_refl | exact barrier_budget_trans
          | exact barrier_budget_emit
          | intros f Hf _; exact (barrier_budget_modify f Hf)
          | exact barrier_budget_rendezvous
          | budget_of_a_read ].
Qed.

(** X18: in a whole life of the worker, whatever the other threads and the
    controllers do, the barrier is waited on at most once. *)
Lemma at_most_one_rendezvous n env :
  (List.length (filter is_BarrierWait (trace (lifetime n env blank))) <= 1)%nat.
Proof.
  pose proof (barrier_budget_in_lifetime n env blank) as H.
  unfold barrier_budget in H. change (waits_left blank) with 1%nat in H. lia.
Qed.

(** X19: the accelerating handler waits only when [nav_calib_] is unset,
    and then the wait is the very first thing it does: no setpoint precedes
    it, and the loop that follows never waits. *)
Lemma rendezvous_opens_acceleration n env s :
  exists rest,
    trace (accelerateMotors n env s)
    = (if nav_calib_ (me s) then [] else [BarrierWait]) ++ rest
    /\ ~ In BarrierWait rest.
Proof.
  eexists. split; [apply accelerateMotors_trace|].
  intros [H|H]; [discriminate|].
  pose proof (obeys_while_state barrier_budget barrier_budget_refl
                barrier_budget_trans State.kAccelerating (accelerate_body n) n
                (barrier_budget_in_turn n) env (rendezvoused s)) as W.
  unfold barrier_budget in W.
  assert (Z0 : waits_left (rendezvoused s) = 0%nat).
  { unfold waits_left, rendezvoused. destruct (nav_calib_ (me s)) eqn:C;
      [rewrite C|]; reflexivity. }
  rewrite Z0 in W.
  assert (In BarrierWait
            (filter is_BarrierWait
               (trace (while_state State.kAccelerating (accelerate_body n) n env
                                   (rendezvoused s))))) as I.
  { apply filter_In. split; [exact H | reflexivity]. }
  destruct (filter is_BarrierWait _); [contradiction | simpl in W; lia].
Qed.

End MotorFacts.

(* ====================================================================== *)
(** * Sensor aggregator: what the registry sees over several turns *)
(* ====================================================================== *)

Module AggregatorFacts.
Import Data Sensors Aggregator SensorsFacts.

Lemma updateImu_same (m : Main) :
  old_sensors_ m = sensors_ m -> updateImu m = false.
Proof.
  intro E. unfold updateImu, kNumImus. simpl. rewrite E, N.eqb_refl. reflexivity.
Qed.

Lemma updateProxi_same (m : Main) :
  old_sensors_ m = sensors_ m -> updateProxi m = false.
Proof. intro E. unfold updateProxi. rewrite E, N.eqb_refl. reflexivity. Qed.

Lemma updateBattery_from_same (todo i : nat) (m : Main) :
  old_batteries_ m = batteries_ m -> updateBattery_from todo i m = false.
Proof.
  intro E. revert i. induction todo as [|todo IH]; intro i; simpl; [reflexivity|].
  rewrite E, !Z.eqb_refl. simpl. apply IH.
Qed.

Lemma updateBattery_same (k : nat) (m : Main) :
  old_batteries_ m = batteries_ m -> updateBattery k m = false.
Proof. apply updateBattery_from_same. Qed.

(** The two tests read their own pair of buffers only. *)
Lemma updateImu_from_buffers (todo i : nat) (m m' : Main) :
  sensors_ m' = sensors_ m -> old_sensors_ m' = old_sensors_ m ->
  updateImu_from todo i m' = updateImu_from todo i m.
Proof.
  intros E1 E2. revert i; induction todo as [|todo IH]; intro i; simpl.
  - reflexivity.
  - rewrite E1, E2, IH. reflexivity.
Qed.

Lemma sensors_test_buffers (m m' : Main) :
  sensors_ m' = sensors_ m -> old_sensors_ m' = old_sensors_ m ->
  updateImu m' || updateProxi m' = updateImu m || updateProxi m.
Proof.
  intros E1 E2. unfold updateImu, updateProxi.
  rewrite (updateImu_from_buffers _ _ m m' E1 E2), E1, E2. reflexivity.
Qed.

Lemma battery_test_buffers (k : nat) (m m' : Main) :
  batteries_ m' = batteries_ m -> old_batteries_ m' = old_batteries_ m ->
  updateBattery k m' = updateBattery k m.
Proof. intros E1 E2. apply updateBattery_from_buffers; assumption. Qed.

(** A turn written out by its two tests. *)
Lemma run_cycle_cases (k : nat) (m : Main) :
  run_cycle k m =
  (mkMain (sensors_ m)
          (if updateImu m || updateProxi m then sensors_ m else old_sensors_ m)
          (batteries_ m)
          (if updateBattery k m then batteries_ m else old_batteries_ m),
   (if updateImu m || updateProxi m then [SetSensorsData (sensors_ m); Yield] else [])
   ++ (if updateBattery k m then [SetBatteryData (batteries_ m); Yield] else [])).
Proof.
  unfold run_cycle, publish_sensors.
  destruct (updateImu m || updateProxi m) eqn:S; unfold publish_batteries.
  - rewrite (battery_test_buffers k m) by reflexivity.
    destruct (updateBattery k m); reflexivity.
  - destruct (updateBattery k m); destruct m; reflexivity.
Qed.

(** X1: a turn of the aggregator loop that follows another with the buffers
    untouched in between publishes nothing and changes nothing: no snapshot
    reaches the registry twice. *)
Theorem run_cycle_settles (kNumLPBatteries : nat) (m : Main) :
  run_cycle kNumLPBatteries (fst (run_cycle kNumLPBatteries m))
  = (fst (run_cycle kNumLPBatteries m), []).
Proof.
  rewrite (run_cycle_cases kNumLPBatteries m). cbn [fst].
  set (m1 := mkMain _ _ _ _).
  assert (S1 : updateImu m1 || updateProxi m1 = false).
  { destruct (updateImu m || updateProxi m) eqn:S.
    - rewrite updateImu_same, updateProxi_same by reflexivity. reflexivity.
    - rewrite <- S. apply sensors_test_buffers; reflexivity. }
  assert (B1 : updateBattery kNumLPBatteries m1 = false).
  { destruct (updateBattery kNumLPBatteries m) eqn:B.
    - apply updateBattery_same. reflexivity.
    - rewrite <- B. apply battery_test_buffers; reflexivity. }
  rewrite run_cycle_cases, S1, B1. reflexivity.
Qed.

(** X2: a worker as its constructor leaves it publishes nothing in a turn,
    whatever the buffers hold, until a device manager writes new data. *)
Theorem fresh_worker_is_silent (kNumLPBatteries : nat)
        (sensors : Data.Sensors) (batteries : Data.Batteries) :
  run_cycle kNumLPBatteries (constructor sensors batteries)
  = (constructor sensors batteries, []).
Proof.
  rewrite run_cycle_cases. unfold constructor.
  rewrite updateImu_same, updateProxi_same, updateBattery_same by reflexivity.
  reflexivity.
Qed.

Lemma published_sensors_app t1 t2 :
  published_sensors (t1 ++ t2) = published_sensors t1 ++ published_sensors t2.
Proof.
  induction t1 as [|e t1 IH]; [reflexivity|]. destruct e; simpl; rewrite ?IH; reflexivity.
Qed.

Lemma published_batteries_app t1 t2 :
  published_batteries (t1 ++ t2) = published_batteries t1 ++ published_batteries t2.
Proof.
  induction t1 as [|e t1 IH]; [reflexivity|]. destruct e; simpl; rewrite ?IH; reflexivity.
Qed.

Lemma sensors_test_changed (m : Main) :
  updateImu m || updateProxi m = true ->
  sensors_changed (old_sensors_ m) (sensors_ m).
Proof.
  rewrite orb_true_iff, updateImu_true, updateProxi_true. intro H. exact H.
Qed.

Lemma battery_test_changed (k : nat) (m : Main) :
  updateBattery k m = true ->
  batteries_changed k (old_batteries_ m) (batteries_ m).
Proof. rewrite updateBattery_true. intro H. exact H. Qed.

(** X3: over any number of turns, each Sensors snapshot written to the
    registry differs from the one written before it (from the buffer at
    construction, for the first) in all eight IMU timestamps or in both
    proximity timestamps; each Batteries snapshot differs from the one
    before it in the voltage or temperature of a low-power battery. *)
Theorem consecutive_publications_differ (kNumLPBatteries : nat) feed : forall m,
  Sorted sensors_changed
         (old_sensors_ m :: published_sensors (snd (run kNumLPBatteries feed m)))
  /\ Sorted (batteries_changed kNumLPBatteries)
            (old_batteries_ m
             :: published_batteries (snd (run kNumLPBatteries feed m))).
Proof.
  induction feed as [|now later IH]; intro m; simpl.
  - split; repeat constructor.
  - rewrite run_cycle_cases.
    set (m0 := store now m).
    set (m1 := mkMain _ _ _ _).
    specialize (IH m1). destruct (run kNumLPBatteries later m1) as [m2 e2].
    cbn [snd] in *. destruct IH as [IS IB].
    rewrite !published_sensors_app, !published_batteries_app.
    split.
    + destruct (updateImu m0 || updateProxi m0) eqn:S;
        destruct (updateBattery kNumLPBatteries m0); simpl in *;
        try exact IS;
        (constructor; [exact IS | constructor; apply (sensors_test_changed m0 S)]).
    + destruct (updateBattery kNumLPBatteries m0) eqn:B;
        destruct (updateImu m0 || updateProxi m0); simpl in *;
        try exact IB;
        (constructor; [exact IB | constructor; apply (battery_test_changed _ m0 B)]).
Qed.

(** X4: whatever is written to the registry is what one of the turns found
    in the buffers: every published Sensors (Batteries) snapshot is an
    element of the feed. *)
Theorem only_buffers_are_published (kNumLPBatteries : nat) feed : forall m,
  Forall (fun s => In s (map fst feed))
         (published_sensors (snd (run kNumLPBatteries feed m)))
  /\ Forall (fun b => In b (map snd feed))
            (published_batteries (snd (run kNumLPBatteries feed m))).
Proof.
  induction feed as [|now later IH]; intro m; simpl.
  - split; constructor.
  - rewrite run_cycle_cases.
    set (m0 := store now m).
    set (m1 := mkMain _ _ _ _).
    specialize (IH m1). destruct (run kNumLPBatteries later m1) as [m2 e2].
    cbn [snd] in *. destruct IH as [IS IB].
    rewrite !published_sensors_app, !published_batteries_app.
    split; apply Forall_app; split.
    + destruct (updateImu m0 || updateProxi m0);
        destruct (updateBattery kNumLPBatteries m0); simpl;
        repeat constructor; left; reflexivity.
    + eapply Forall_impl; [|exact IS]. intros s H. right. exact H.
    + destruct (updateImu m0 || updateProxi m0);
        destruct (updateBattery kNumLPBatteries m0); simpl;
        repeat constructor; left; reflexivity.
    + eapply Forall_impl; [|exact IB]. intros s H. right. exact H.
Qed.

End AggregatorFacts.

(* ====================================================================== *)
(** * Fake batteries seen by the aggregator *)
(* ====================================================================== *)

Module FakeBatteriesFacts.
Import Data Sensors FakeBatteries SensorsFacts.

Lemma fake_readings_agree (f : FakeBatteries.t) (b1 b2 : Battery) :
  ~ battery_differs (getData f b1) (getData f b2).
Proof.
  unfold battery_differs, getData.
  destruct (is_high_voltage_ f); simpl; intros [H|H]; apply H; reflexivity.
Qed.

(** X5: two readings of one fake battery agree in voltage and temperature
    whatever records they were written into; so when every low-power slot
    of the previous and of the current buffer holds readings of one fake
    battery, the turn does not publish Batteries. *)
Theorem fake_batteries_publish_nothing (kNumLPBatteries : nat) (m : Main)
        (fakes : nat -> FakeBatteries.t) :
  (forall i, (i < kNumLPBatteries)%nat ->
     exists b b', lp_at (old_batteries_ m) i = getData (fakes i) b
                  /\ lp_at (batteries_ m) i = getData (fakes i) b') ->
  batteries_published kNumLPBatteries m = false.
Proof.
  intro H. rewrite batteries_published_test.
  destruct (updateBattery kNumLPBatteries m) eqn:U; [|reflexivity].
  apply updateBattery_true in U. destruct U as (i & Hi & D).
  destruct (H i Hi) as (b & b' & E1 & E2). rewrite E1, E2 in D.
  exfalso. exact (fake_readings_agree _ _ _ D).
Qed.

Lemma fake_batteries_publish_nothing_example :
  batteries_published 2 Samples.fake_fed = false.
Proof.
  apply (fake_batteries_publish_nothing 2 Samples.fake_fed
           (fun i => FakeBatteries.constructor (Nat.eqb i 0) true)).
  intros i Hi. destruct i as [|[|i]]; [| |lia].
  - exists zeroBattery, zeroBattery. split; reflexivity.
  - exists zeroBattery, zeroBattery. split; reflexivity.
Defined.

End FakeBatteriesFacts.

(* ====================================================================== *)
(** * Motor controller: the turns and the stop procedure, state included *)
(* ====================================================================== *)

Module MotorTurns.
Import MotorControl MotorSpec MotorStates MotorFacts.
Local Open Scope motor_scope.

Lemma updateMotorFailure_runs env s :
  updateMotorFailure env s = Done tt (failure_flagged s) (failure_events s).
Proof. reflexivity. Qed.

Lemma stop_and_break n env s :
  (stopMotors n ;; ret Break) env s = after_stop [] (stopMotors n env s).
Proof.
  unfold bind at 1, after_stop.
  destruct (stopMotors n env s) as [[] s1 t1|s1 t1]; simpl;
    rewrite ?app_nil_r; reflexivity.
Qed.

Lemma after_stop_after pre1 pre2 o :
  match after_stop pre2 o with
  | Done b s2 t2 => Done b s2 (pre1 ++ t2)
  | Timeout s2 t2 => Timeout s2 (pre1 ++ t2)
  end = after_stop (pre1 ++ pre2) o.
Proof. destruct o; simpl; rewrite app_assoc; reflexivity. Qed.

Lemma accelerate_body_turn n env s :
  accelerate_body n env s = turn "Motor State: Accelerating" 100 n env s.
Proof.
  unfold accelerate_body, turn.
  unfold bind at 1. cbn [getStateMachineData].
  unfold bind at 1. cbn [modify me reads].
  unfold bind at 1. cbn [self me reads state_ set_state_].
  fold (next_state env s). fold (state_read env s).
  destruct (critical_failure (next_state env s)).
  { rewrite stop_and_break.
    destruct (stopMotors n env (state_read env s)); reflexivity. }
  unfold bind at 1. cbn [healthCheck emit].
  unfold bind at 1. cbn [getFailure me reads n_failure state_read].
  fold (next_failure env s).
  destruct (next_failure env s).
  { unfold bind at 1. rewrite updateMotorFailure_runs. rewrite stop_and_break.
    match goal with |- context [stopMotors n env ?x] =>
      change x with (failure_flagged (failure_read (state_read env s)));
      destruct (stopMotors n env (failure_flagged (failure_read (state_read env s))))
    end; reflexivity. }
  rewrite accelerate_step_runs. reflexivity.
Qed.

Lemma decelerate_body_turn n env s :
  decelerate_body n env s = turn "Motor State: Deccelerating" (-100) n env s.
Proof.
  unfold decelerate_body, turn.
  unfold bind at 1. cbn [getStateMachineData].
  unfold bind at 1. cbn [modify me reads].
  unfold bind at 1. cbn [self me reads state_ set_state_].
  fold (next_state env s). fold (state_read env s).
  destruct (critical_failure (next_state env s)).
  { rewrite stop_and_break.
    destruct (stopMotors n env (state_read env s)); reflexivity. }
  unfold bind at 1. cbn [healthCheck emit].
  unfold bind at 1. cbn [getFailure me reads n_failure state_read].
  fold (next_failure env s).
  destruct (next_failure env s).
  { unfold bind at 1. rewrite updateMotorFailure_runs. rewrite stop_and_break.
    match goal with |- context [stopMotors n env ?x] =>
      change x with (failure_flagged (failure_read (state_read env s)));
      destruct (stopMotors n env (failure_flagged (failure_read (state_read env s))))
    end; reflexivity. }
  rewrite decelerate_step_runs. reflexivity.
Qed.

(** ** What [stopMotors] keeps *)

Lemma undisturbed_refl m : undisturbed m m.
Proof. unfold undisturbed. repeat split. Qed.

Lemma undisturbed_trans m1 m2 m3 :
  undisturbed m1 m2 -> undisturbed m2 m3 -> undisturbed m1 m3.
Proof. unfold undisturbed. intuition congruence. Qed.

Lemma stop_keeps_refl s : stop_keeps s [] s.
Proof.
  unfold stop_keeps. split; [apply undisturbed_refl|]. repeat split; auto.
Qed.

Lemma stop_keeps_trans s1 t1 s2 t2 s3 :
  stop_keeps s1 t1 s2 -> stop_keeps s2 t2 s3 -> stop_keeps s1 (t1 ++ t2) s3.
Proof.
  unfold stop_keeps.
  intros (U1 & L1 & A1 & B1 & C1 & F1) (U2 & L2 & A2 & B2 & C2 & F2).
  split; [eapply undisturbed_trans; eassumption|].
  split; [auto|]. split; [congruence|]. split; [congruence|]. split; [congruence|].
  apply Forall_app. split; [exact F1|].
  destruct U1 as (_ & _ & _ & _ & _ & _ & _ & _ & St). rewrite <- St. exact F2.
Qed.

Ltac keeps_by_computing :=
  intros env s; unfold stop_keeps, undisturbed; simpl;
  repeat split; auto; repeat constructor.

Lemma stop_keeps_updateMotorData : obeys stop_keeps updateMotorData.
Proof. intros env s. rewrite updateMotorData_runs. revert env s. keeps_by_computing. Qed.

Lemma stop_keeps_stop_body : obeys stop_keeps stop_body.
Proof.
  intros env s. rewrite stop_body_runs.
  destruct (all_zero (reported env s 0)); revert env s; keeps_by_computing.
Qed.

Lemma stop_keeps_stopMotors n : obeys stop_keeps (stopMotors n).
Proof.
  unfold stopMotors, quickStopAll, enterPreOperational.
  apply (obeys_bind _ stop_keeps_trans); [keeps_by_computing | intros _].
  apply (obeys_bind _ stop_keeps_trans); [|intros _].
  - apply (obeys_stop_loop _ stop_keeps_refl stop_keeps_trans), stop_keeps_stop_body.
  - apply (obeys_bind _ stop_keeps_trans);
      [apply stop_keeps_updateMotorData | intros _; keeps_by_computing].
Qed.


(** ** Walking through a method bind by bind *)

(** [walk refl trans known prim] splits a goal [obeys R m] along the binds
    and branches of [m]; [known] closes the methods already dealt with,
    [prim] the single calls. *)
Ltac walk refl trans known prim :=
  repeat first
    [ solve [known]
    | apply (obeys_ret _ refl)
    | apply (obeys_self _ refl)
    | apply (obeys_out_of_iterations _ refl)
    | apply (obeys_when _ refl)
    | apply (obeys_bind _ trans); [|intro]
    | match goal with
      | |- obeys _ (if ?b then _ else _) => destruct b
      | |- obeys _ (match ?c with Continue => _ | Break => _ end) => destruct c
      end
    | solve [prim] ].

Ltac unfold_methods :=
  unfold constructor, initMotors, prepareMotors, updateMotorFailure, updateMotorData,
    stop_body, accelerate_body, decelerate_body, accelerationVelocity,
    decelerationVelocity, accelerationTorque, decelerationTorque, servicePropulsion,
    registerControllers, configureControllers, communicator_prepareMotors,
    healthCheck, sendTargetVelocity, sendTargetTorque, quickStopAll,
    enterPreOperational, setMotorData, post_calibration_barrier_wait, yield, log.

(** ** The latches go one way *)

Lemma one_way_refl s : one_way s [] s.
Proof. unfold one_way, latches_kept. tauto. Qed.

Lemma one_way_trans s1 t1 s2 t2 s3 :
  one_way s1 t1 s2 -> one_way s2 t2 s3 -> one_way s1 (t1 ++ t2) s3.
Proof. unfold one_way, latches_kept. tauto. Qed.

Ltac one_way_step :=
  intros ?env ?s; unfold one_way, latches_kept; simpl; tauto.

Lemma one_way_stop_loop n : obeys one_way (stop_loop n).
Proof.
  apply (obeys_stop_loop _ one_way_refl one_way_trans). unfold_methods.
  walk one_way_refl one_way_trans fail one_way_step.
Qed.

Ltac one_way_walk :=
  walk one_way_refl one_way_trans ltac:(apply one_way_stop_loop) one_way_step.

Lemma one_way_stopMotors n : obeys one_way (stopMotors n).
Proof. unfold stopMotors. unfold_methods. one_way_walk. Qed.

Lemma one_way_accelerate_body n : obeys one_way (accelerate_body n).
Proof. unfold_methods. one_way_walk. Qed.

Lemma one_way_decelerate_body n : obeys one_way (decelerate_body n).
Proof. unfold_methods. one_way_walk. Qed.

Lemma one_way_run_body n : obeys one_way (run_body n).
Proof.
  unfold run_body.
  apply (obeys_bind _ one_way_trans); [one_way_step | intro sm].
  apply (obeys_bind _ one_way_trans); [one_way_step | intros _].
  apply (obeys_bind _ one_way_trans); [one_way_step | intro m].
  destruct (current_state (state_ m)).
  - unfold_methods. one_way_walk.
  - unfold_methods. one_way_walk.
  - one_way_step.
  - unfold accelerateMotors. unfold_methods.
    apply (obeys_bind _ one_way_trans); [one_way_step | intro m0].
    apply (obeys_bind _ one_way_trans); [one_way_walk | intros _].
    apply (obeys_bind _ one_way_trans); [one_way_step | intros _].
    apply (obeys_while_state _ one_way_refl one_way_trans), one_way_accelerate_body.
  - one_way_step.
  - unfold decelerateMotors. unfold_methods.
    apply (obeys_bind _ one_way_trans); [one_way_step | intros _].
    apply (obeys_while_state _ one_way_refl one_way_trans), one_way_decelerate_body.
  - one_way_step.
  - one_way_step.
  - apply one_way_stopMotors.
  - one_way_step.
Qed.

(** X9: while the worker runs, its latches go one way only: once set,
    [nav_calib_], [motors_init_], [motors_ready_], [motor_failure_] and
    [all_motors_stopped_] stay set, and [run_] once cleared stays cleared,
    whatever the registry and the controllers answer and also when the
    loop does not return. *)
Theorem latches_go_one_way n k env s :
  latches_kept (me s) (me (final (run_loop n k env s))).
Proof.
  exact (obeys_run_loop one_way one_way_refl one_way_trans n k
           (one_way_run_body n) env s).
Qed.


(** ** The turn of [run] by the state it read *)

Lemma trace_preceded {A} pre (o : Outcome A) : trace (preceded pre o) = pre ++ trace o.
Proof. destruct o; reflexivity. Qed.

Lemma final_preceded {A} pre (o : Outcome A) : final (preceded pre o) = final o.
Proof. destruct o; reflexivity. Qed.

Lemma run_body_dispatch n env s :
  run_body n env s
  = preceded [GetStateMachineData (next_state env s)]
             (dispatch (current_state (next_state env s)) n env (state_read env s)).
Proof.
  unfold run_body, preceded.
  unfold bind at 1. cbn [getStateMachineData].
  unfold bind at 1. cbn [modify me reads].
  unfold bind at 1. cbn [self me reads state_ set_state_].
  fold (next_state env s). fold (state_read env s).
  unfold dispatch.
  match goal with |- context [?X env (state_read env s)] =>
    destruct (X env (state_read env s)) end; reflexivity.
Qed.

Lemma trace_after_stop pre o : trace (after_stop pre o) = pre ++ trace o.
Proof. destruct o; reflexivity. Qed.

Lemma final_after_stop pre o : final (after_stop pre o) = final o.
Proof. destruct o; reflexivity. Qed.

Lemma continues_after_stop pre o : continues (after_stop pre o) = false.
Proof. destruct o; reflexivity. Qed.

(** ** A stopped worker asked to stop again *)

(** X6: once [all_motors_stopped_] is set, [stopMotors] does not enter its
    loop: whatever the bound on the turns, it returns after quick-stop, one
    refresh of the readings with its publication, and the command to
    pre-operational; the latch stays set. *)
Theorem stopMotors_when_stopped n env s :
  all_motors_stopped_ (me s) = true ->
  stopMotors n env s
  = Done tt (refreshed env s)
         (QuickStopAll
          :: refresh_events env (n_velocity (reads s)) (n_torque (reads s))
                            (motor_data_ (me s))
          ++ [EnterPreOperational])
  /\ all_motors_stopped_ (me (refreshed env s)) = true.
Proof.
  intro L. split; [|exact L].
  rewrite stopMotors_unfold, stop_loop_unfold, L. reflexivity.
Qed.

Lemma stopMotors_when_stopped_example :
  stopMotors 0 Samples.spinning_down (latched blank)
  = Done tt (refreshed Samples.spinning_down (latched blank))
         (QuickStopAll
          :: refresh_events Samples.spinning_down
               (n_velocity (reads (latched blank))) (n_torque (reads (latched blank)))
               (motor_data_ (me (latched blank)))
          ++ [EnterPreOperational])
  /\ all_motors_stopped_ (me (refreshed Samples.spinning_down (latched blank))) = true.
Proof.
  apply (stopMotors_when_stopped 0 Samples.spinning_down (latched blank)).
  reflexivity.
Defined.

(** ** Setting the motors up *)

Lemma initMotors_skips env s :
  negb (motors_init_ (me s)) && negb (motor_failure_ (me s)) = false ->
  initMotors env s = Done tt s [].
Proof. intro G. unfold initMotors, bind, self, when. rewrite G. reflexivity. Qed.

Lemma prepareMotors_skips env s :
  negb (motors_ready_ (me s)) && negb (motor_failure_ (me s)) = false ->
  prepareMotors env s = Done tt s [].
Proof. intro G. unfold prepareMotors, bind, self, when. rewrite G. reflexivity. Qed.








(** ** The decelerating loop, turn by turn *)

Lemma turn_guarded msg delta n env s :
  exists rest,
    trace (turn msg delta n env s) = GetStateMachineData (next_state env s) :: rest
    /\ existsb is_GetStateMachineData rest = false
    /\ (critical_failure (next_state env s) = true ->
        rest = trace (stopMotors n env (state_read env s))
        /\ existsb is_setpoint rest = false
        /\ continues (turn msg delta n env s) = false)
    /\ (existsb is_setpoint rest = true ->
        critical_failure (next_state env s) = false
        /\ next_failure env s = false
        /\ In (GetFailure false) rest /\ ~ In (GetFailure true) rest).
Proof.
  unfold turn.
  destruct (critical_failure (next_state env s)).
  - pose proof (stopMotors_calls n env (state_read env s)) as A.
    eexists. split; [rewrite trace_after_stop; reflexivity|].
    split; [apply stop_calls_no_state_read, A|]. split.
    + intros _. split; [reflexivity|]. split.
      * apply stop_calls_no_setpoint, A.
      * apply continues_after_stop.
    + rewrite (stop_calls_no_setpoint _ A). discriminate.
  - destruct (next_failure env s).
    + pose proof (stopMotors_calls n env
                    (failure_flagged (failure_read (state_read env s)))) as A.
      eexists. split; [rewrite trace_after_stop; reflexivity|]. simpl.
      rewrite (stop_calls_no_state_read _ A), (stop_calls_no_setpoint _ A).
      split; [reflexivity|]. split; discriminate.
    + eexists. split; [reflexivity|]. split; [reflexivity|]. split; [discriminate|].
      intros _. split; [reflexivity|]. split; [reflexivity|]. split; [simpl; tauto|].
      simpl. intros [H|[H|[H|[H|[H|[H|[H|[H|[H|[]]]]]]]]]]; discriminate.
Qed.

(** X10: the calls of the decelerating handler are a log line and then the
    calls of the turns its loop takes, each turn a run of the loop body
    entered with [state_] Decelerating.  Every turn starts by re-reading the
    state-machine snapshot from the registry (and reads it only then).  If
    the snapshot has [critical_failure] set, the rest of the turn is
    [stopMotors], run on the worker that stored the snapshot: no target
    velocity or torque is sent, and the turn is the last one of the loop.
    A turn that sends a setpoint read [critical_failure] false and was
    answered "no failure" after its health check. *)
Theorem decelerating_turns_guarded n env s :
  trace (decelerateMotors n env s)
  = Log INFO "Motor State: Deccelerating"
    :: calls_of (turns_taken State.kDecelerating (decelerate_body n) n env s)
  /\ forall before si o after,
       turns_taken State.kDecelerating (decelerate_body n) n env s
       = before ++ (si, o) :: after ->
       current_state (state_ (me si)) = State.kDecelerating
       /\ o = decelerate_body n env si
       /\ exists rest,
            trace o = GetStateMachineData (state_machine_data env (n_state (reads si)))
                      :: rest
            /\ existsb is_GetStateMachineData rest = false
            /\ (critical_failure (state_machine_data env (n_state (reads si))) = true ->
                rest = trace (stopMotors n env (state_read env si))
                /\ existsb is_setpoint rest = false
                /\ after = [])
            /\ (existsb is_setpoint rest = true ->
                critical_failure (state_machine_data env (n_state (reads si))) = false
                /\ failure env (n_failure (reads si)) = false
                /\ In (GetFailure false) rest /\ ~ In (GetFailure true) rest).
Proof.
  split.
  - rewrite decelerateMotors_trace, while_state_turns. reflexivity.
  - intros before si o after Eq.
    destruct (turns_taken_split _ _ _ _ _ _ _ _ _ Eq) as (A & -> & Last).
    split; [exact A|]. split; [reflexivity|].
    destruct (turn_guarded "Motor State: Deccelerating" (-100) n env si)
      as (rest & E & G & Crit & Sent).
    rewrite <- decelerate_body_turn in *.
    exists rest. split; [exact E|]. split; [exact G|]. split; [|exact Sent].
    intro C. destruct (Crit C) as (Q & N & K). auto.
Qed.

(** ** A turn whose health check fails, and a turn that goes through *)

Lemma failed_after_stop n env s :
  failed s -> failed (final (stopMotors n env s)).
Proof.
  intros [F St].
  destruct (stop_keeps_stopMotors n env s)
    as ((_ & _ & _ & _ & _ & _ & _ & F' & St') & _).
  split; congruence.
Qed.

Lemma turn_on_failure msg delta n env s :
  critical_failure (next_state env s) = false ->
  next_failure env s = true ->
  trace (turn msg delta n env s)
  = GetStateMachineData (next_state env s) :: HealthCheck :: GetFailure true
    :: failure_events s
    ++ trace (stopMotors n env (failure_flagged (failure_read (state_read env s))))
  /\ existsb is_setpoint (trace (turn msg delta n env s)) = false
  /\ continues (turn msg delta n env s) = false
  /\ failed (final (turn msg delta n env s)).
Proof.
  intros C F. unfold turn. rewrite C, F.
  rewrite trace_after_stop, final_after_stop, continues_after_stop.
  split; [reflexivity|]. split; [|split; [reflexivity|]].
  - simpl. apply stop_calls_no_setpoint, stopMotors_calls.
  - apply failed_after_stop. split; reflexivity.
Qed.

(** X11: in a turn of the accelerating or of the decelerating loop whose
    health check reports a failure (the snapshot having no critical
    failure), the worker publishes module status [kCriticalFailure], then
    runs [stopMotors]; it sends no target velocity or torque, the turn is
    the last of the loop, and it ends with [motor_failure_] set and the
    critical status still in [motor_data_], also when the motors never
    report a stop. *)
Theorem failed_health_check_stops n env s :
  critical_failure (next_state env s) = false ->
  next_failure env s = true ->
  (trace (accelerate_body n env s)
   = GetStateMachineData (next_state env s) :: HealthCheck :: GetFailure true
     :: failure_events s
     ++ trace (stopMotors n env (failure_flagged (failure_read (state_read env s))))
   /\ existsb is_setpoint (trace (accelerate_body n env s)) = false
   /\ continues (accelerate_body n env s) = false
   /\ failed (final (accelerate_body n env s)))
  /\ (trace (decelerate_body n env s)
      = GetStateMachineData (next_state env s) :: HealthCheck :: GetFailure true
        :: failure_events s
        ++ trace (stopMotors n env (failure_flagged (failure_read (state_read env s))))
      /\ existsb is_setpoint (trace (decelerate_body n env s)) = false
      /\ continues (decelerate_body n env s) = false
      /\ failed (final (decelerate_body n env s))).
Proof.
  intros C F. rewrite accelerate_body_turn, decelerate_body_turn.
  split; apply turn_on_failure; assumption.
Qed.

Lemma failed_health_check_stops_example :
  (trace (accelerate_body 3 Samples.failing blank)
   = GetStateMachineData (next_state Samples.failing blank)
     :: HealthCheck :: GetFailure true
     :: failure_events blank
     ++ trace (stopMotors 3 Samples.failing
                 (failure_flagged (failure_read (state_read Samples.failing blank))))
   /\ existsb is_setpoint (trace (accelerate_body 3 Samples.failing blank)) = false
   /\ continues (accelerate_body 3 Samples.failing blank) = false
   /\ failed (final (accelerate_body 3 Samples.failing blank)))
  /\ (trace (decelerate_body 3 Samples.failing blank)
      = GetStateMachineData (next_state Samples.failing blank)
        :: HealthCheck :: GetFailure true
        :: failure_events blank
        ++ trace (stopMotors 3 Samples.failing
                    (failure_flagged (failure_read (state_read Samples.failing blank))))
      /\ existsb is_setpoint (trace (decelerate_body 3 Samples.failing blank)) = false
      /\ continues (decelerate_body 3 Samples.failing blank) = false
      /\ failed (final (decelerate_body 3 Samples.failing blank))).
Proof.
  apply (failed_health_check_stops 3 Samples.failing blank); reflexivity.
Defined.

(** X12: a turn of the accelerating loop that reads no critical failure
    and a health check without failure makes exactly these calls, in this
    order: state read, health check, failure read, log line, navigation
    read, target velocity, target torque, actual velocity, actual torque,
    publication; what it publishes is the motor data made, member by member,
    of the four velocities and the four torques just read, with the module
    status as it was; and the loop goes on.  The decelerating loop does the
    same with the target lowered. *)
Theorem healthy_turn_sequence n env s :
  critical_failure (next_state env s) = false ->
  next_failure env s = false ->
  accelerate_body n env s
  = Done Continue
      (stepped (int32 (target_velocity_ (me s) + 100)) env
               (failure_read (state_read env s)))
      [ GetStateMachineData (next_state env s); HealthCheck; GetFailure false;
        Log DBG2 "Motor State: Accelerating";
        GetNavigationData (navigation_data env (n_nav (reads s)));
        SendTargetVelocity (int32 (target_velocity_ (me s) + 100));
        SendTargetTorque 0;
        RequestActualVelocity (actual_velocity env (n_velocity (reads s)));
        RequestActualTorque (actual_torque env (n_torque (reads s)));
        SetMotorData (motor_data_of (actual_velocity env (n_velocity (reads s)))
                                    (actual_torque env (n_torque (reads s)))
                                    (Motors.module_status (motor_data_ (me s)))) ]
  /\ decelerate_body n env s
     = Done Continue
         (stepped (int32 (target_velocity_ (me s) - 100)) env
                  (failure_read (state_read env s)))
         [ GetStateMachineData (next_state env s); HealthCheck; GetFailure false;
           Log DBG2 "Motor State: Deccelerating";
           GetNavigationData (navigation_data env (n_nav (reads s)));
           SendTargetVelocity (int32 (target_velocity_ (me s) - 100));
           SendTargetTorque 0;
           RequestActualVelocity (actual_velocity env (n_velocity (reads s)));
           RequestActualTorque (actual_torque env (n_torque (reads s)));
           SetMotorData (motor_data_of (actual_velocity env (n_velocity (reads s)))
                                       (actual_torque env (n_torque (reads s)))
                                       (Motors.module_status (motor_data_ (me s)))) ].
Proof.
  intros C F. rewrite accelerate_body_turn, decelerate_body_turn.
  unfold turn. rewrite C, F. split; reflexivity.
Qed.

Lemma healthy_turn_sequence_example :
  accelerate_body 3 Samples.coasting blank
  = Done Continue
      (stepped (int32 (target_velocity_ (me blank) + 100)) Samples.coasting
               (failure_read (state_read Samples.coasting blank)))
      [ GetStateMachineData (next_state Samples.coasting blank); HealthCheck;
        GetFailure false;
        Log DBG2 "Motor State: Accelerating";
        GetNavigationData (navigation_data Samples.coasting (n_nav (reads blank)));
        SendTargetVelocity (int32 (target_velocity_ (me blank) + 100));
        SendTargetTorque 0;
        RequestActualVelocity (actual_velocity Samples.coasting (n_velocity (reads blank)));
        RequestActualTorque (actual_torque Samples.coasting (n_torque (reads blank)));
        SetMotorData
          (motor_data_of (actual_velocity Samples.coasting (n_velocity (reads blank)))
                         (actual_torque Samples.coasting (n_torque (reads blank)))
                         (Motors.module_status (motor_data_ (me blank)))) ]
  /\ decelerate_body 3 Samples.coasting blank
     = Done Continue
         (stepped (int32 (target_velocity_ (me blank) - 100)) Samples.coasting
                  (failure_read (state_read Samples.coasting blank)))
         [ GetStateMachineData (next_state Samples.coasting blank); HealthCheck;
           GetFailure false;
           Log DBG2 "Motor State: Deccelerating";
           GetNavigationData (navigation_data Samples.coasting (n_nav (reads blank)));
           SendTargetVelocity (int32 (target_velocity_ (me blank) - 100));
           SendTargetTorque 0;
           RequestActualVelocity (actual_velocity Samples.coasting (n_velocity (reads blank)));
           RequestActualTorque (actual_torque Samples.coasting (n_torque (reads blank)));
           SetMotorData
             (motor_data_of (actual_velocity Samples.coasting (n_velocity (reads blank)))
                            (actual_torque Samples.coasting (n_torque (reads blank)))
                            (Motors.module_status (motor_data_ (me blank)))) ].
Proof.
  apply (healthy_turn_sequence 3 Samples.coasting blank); reflexivity.
Defined.


(** ** Where setpoints can come from *)

Lemma no_setpoint_refl s : no_setpoint s [] s.
Proof. reflexivity. Qed.

Lemma no_setpoint_trans s1 t1 s2 t2 s3 :
  no_setpoint s1 t1 s2 -> no_setpoint s2 t2 s3 -> no_setpoint s1 (t1 ++ t2) s3.
Proof.
  unfold no_setpoint. intros H1 H2. rewrite existsb_app, H1, H2. reflexivity.
Qed.

Ltac no_setpoint_step := intros ?env ?s; reflexivity.

Lemma no_setpoint_stopMotors n : obeys no_setpoint (stopMotors n).
Proof. intros env s. apply stop_calls_no_setpoint, stopMotors_calls. Qed.

Ltac no_setpoint_walk :=
  walk no_setpoint_refl no_setpoint_trans ltac:(apply no_setpoint_stopMotors)
       no_setpoint_step.

Lemma no_setpoint_initMotors : obeys no_setpoint initMotors.
Proof. unfold_methods. no_setpoint_walk. Qed.

Lemma no_setpoint_prepareMotors : obeys no_setpoint prepareMotors.
Proof. unfold_methods. no_setpoint_walk. Qed.

Lemma no_setpoint_dispatch st n :
  st <> State.kAccelerating -> st <> State.kDecelerating ->
  obeys no_setpoint (dispatch st n).
Proof.
  intros A D. destruct st; try contradiction; unfold dispatch.
  - apply (obeys_bind _ no_setpoint_trans);
      [apply no_setpoint_initMotors | intros _; no_setpoint_step].
  - apply (obeys_bind _ no_setpoint_trans);
      [apply no_setpoint_prepareMotors | intros _; no_setpoint_step].
  - no_setpoint_step.
  - no_setpoint_step.
  - no_setpoint_step.
  - no_setpoint_step.
  - apply no_setpoint_stopMotors.
  - no_setpoint_step.
Qed.

(** X13: a turn of [run] sends a target velocity or torque only when the
    state it read is Accelerating or Decelerating: in every other state
    (idle, calibrating, run complete, exiting, emergency braking, failure
    stopped, and the states [run] has no branch for) no setpoint goes out. *)
Theorem no_setpoint_outside_drive_states n env s :
  current_state (next_state env s) <> State.kAccelerating ->
  current_state (next_state env s) <> State.kDecelerating ->
  existsb is_setpoint (trace (run_body n env s)) = false.
Proof.
  intros A D. rewrite run_body_dispatch, trace_preceded. simpl.
  apply (no_setpoint_dispatch _ n A D).
Qed.

Lemma no_setpoint_outside_drive_states_example :
  existsb is_setpoint (trace (run_body 4 Samples.spinning_down blank)) = false.
Proof.
  apply (no_setpoint_outside_drive_states 4 Samples.spinning_down blank);
    simpl; discriminate.
Defined.

(** ** After a critical failure *)

Lemma critical_turn_is_silent msg delta n env s :
  critical_failure (next_state env s) = true ->
  existsb is_setpoint (trace (turn msg delta n env s)) = false
  /\ continues (turn msg delta n env s) = false.
Proof.
  intro C. unfold turn. rewrite C, trace_after_stop, continues_after_stop.
  split; [|reflexivity]. simpl. apply stop_calls_no_setpoint, stopMotors_calls.
Qed.

Lemma critical_loop_is_silent st body k env s :
  existsb is_setpoint (trace (body env s)) = false ->
  continues (body env s) = false ->
  existsb is_setpoint (trace (while_state st body k env s)) = false.
Proof.
  intros T K. rewrite while_state_trace.
  destruct (State.eqb (current_state (state_ (me s))) st); [|reflexivity].
  destruct k; [reflexivity|].
  pose proof (last_turn_trace _ K) as L.
  destruct (body env s) as [[|] ? ?|? ?]; [contradiction| |]; rewrite L; exact T.
Qed.

Lemma critical_from_now_later env s s' :
  critical_from_now env s ->
  (n_state (reads s) <= n_state (reads s'))%nat ->
  critical_from_now env s'.
Proof. intros C L i Hi. apply C. lia. Qed.

Lemma critical_dispatch_is_silent st n env s :
  critical_from_now env s ->
  existsb is_setpoint (trace (dispatch st n env s)) = false.
Proof.
  intro C.
  destruct (State.eqb st State.kAccelerating) eqn:A;
    [|destruct (State.eqb st State.kDecelerating) eqn:D].
  - destruct st; try discriminate. unfold dispatch.
    rewrite accelerateMotors_trace, existsb_app.
    assert (C1 : critical_failure (next_state env (rendezvoused s)) = true).
    { apply C. unfold rendezvoused. destruct (nav_calib_ (me s)); simpl; lia. }
    destruct (critical_turn_is_silent "Motor State: Accelerating" 100 n env
                (rendezvoused s) C1) as [T K].
    rewrite <- accelerate_body_turn in T, K. simpl.
    rewrite (critical_loop_is_silent _ _ _ _ _ T K).
    destruct (nav_calib_ (me s)); reflexivity.
  - destruct st; try discriminate. unfold dispatch.
    rewrite decelerateMotors_trace.
    assert (C1 : critical_failure (next_state env s) = true) by (apply C; lia).
    destruct (critical_turn_is_silent "Motor State: Deccelerating" (-100) n env s C1)
      as [T K].
    rewrite <- decelerate_body_turn in T, K. simpl.
    apply (critical_loop_is_silent _ _ _ _ _ T K).
  - apply no_setpoint_dispatch; intros ->; discriminate.
Qed.

Lemma reads_advance_in_run_body n : obeys reads_advance (run_body n).
Proof.
  apply obeys_run_body; unfold obeys, reads_advance;
    first [ intros s; lia
          | intros s1 t1 s2 t2 s3 H1 H2; lia
          | intros e _ env s; simpl; lia
          | intros f _ _ env s; simpl; lia
          | intros s C; unfold rendezvoused; rewrite C; simpl; lia
          | intros env s; simpl; lia ].
Qed.

Lemma critical_run_body_is_silent n env s :
  critical_from_now env s ->
  existsb is_setpoint (trace (run_body n env s)) = false.
Proof.
  intro C. rewrite run_body_dispatch, trace_preceded. simpl.
  apply critical_dispatch_is_silent.
  apply (critical_from_now_later env s); [exact C | simpl; lia].
Qed.

Lemma run_loop_unfold n k env s :
  run_loop n k env s =
  if run_ (me s)
  then match k with
       | O => Timeout s []
       | S k' =>
           match run_body n env s with
           | Done _ s1 t1 => preceded t1 (run_loop n k' env s1)
           | Timeout s1 t1 => Timeout s1 t1
           end
       end
  else Done tt s [].
Proof.
  destruct k; simpl; unfold bind at 1; simpl; destruct (run_ (me s)); try reflexivity.
  unfold bind at 1. destruct (run_body n env s) as [[] s1 t1|s1 t1]; [|reflexivity].
  destruct (run_loop n k env s1); reflexivity.
Qed.

(** X14: once every snapshot the registry hands out has [critical_failure]
    set, the worker never sends a target velocity or torque again, however
    long [run] goes on and whatever states, health answers and velocities
    it is given. *)
Theorem no_setpoint_after_critical_failure n k : forall env s,
  critical_from_now env s ->
  existsb is_setpoint (trace (run_loop n k env s)) = false.
Proof.
  induction k as [|k IH]; intros env s C; rewrite run_loop_unfold;
    destruct (run_ (me s)); try reflexivity.
  pose proof (critical_run_body_is_silent n env s C) as T.
  pose proof (reads_advance_in_run_body n env s) as A. unfold reads_advance in A.
  destruct (run_body n env s) as [[] s1 t1|s1 t1]; simpl in T, A; [|exact T].
  rewrite trace_preceded, existsb_app, T. simpl.
  apply IH. apply (critical_from_now_later env s); assumption.
Qed.

Lemma no_setpoint_after_critical_failure_example :
  existsb is_setpoint (trace (run_loop 4 4 Samples.spinning_down blank)) = false.
Proof.
  apply (no_setpoint_after_critical_failure 4 4 Samples.spinning_down blank).
  intros i _. reflexivity.
Defined.


(** ** From the methods to [run]

    A relation that holds of the setup methods, of [stopMotors] and of the
    two loop bodies, and that plain calls and the bookkeeping of [run]
    respect, holds of [run]. *)

Lemma decelerateMotors_final n env s :
  final (decelerateMotors n env s)
  = final (while_state State.kDecelerating (decelerate_body n) n env s).
Proof. unfold decelerateMotors, log. rewrite final_bind. reflexivity. Qed.

Section Dispatching.

Variable R : Sys -> list Event -> Sys -> Prop.
Hypothesis R_refl : forall s, R s [] s.
Hypothesis R_trans :
  forall s1 t1 s2 t2 s3, R s1 t1 s2 -> R s2 t2 s3 -> R s1 (t1 ++ t2) s3.
Hypothesis R_plain : forall e s, is_plain_call e = true -> R s [e] s.
Hypothesis R_state_read :
  forall env s, R s [GetStateMachineData (next_state env s)] (state_read env s).
Hypothesis R_rendezvoused :
  forall s, R s (if nav_calib_ (me s) then [] else [BarrierWait]) (rendezvoused s).
Hypothesis R_run_cleared :
  forall s, R s [] (mkSys (set_run_ false (me s)) (reads s)).
Hypothesis R_initMotors : obeys R initMotors.
Hypothesis R_prepareMotors : obeys R prepareMotors.
Hypothesis R_stopMotors : forall n, obeys R (stopMotors n).
Hypothesis R_accelerate_body : forall n, obeys R (accelerate_body n).
Hypothesis R_decelerate_body : forall n, obeys R (decelerate_body n).

Lemma through_accelerateMotors n : obeys R (accelerateMotors n).
Proof.
  intros env s. rewrite accelerateMotors_trace, accelerateMotors_final.
  apply R_trans with (s2 := rendezvoused s); [apply R_rendezvoused|].
  apply (R_trans _ [Log INFO "Motor State: Accelerating"] (rendezvoused s));
    [apply R_plain; reflexivity|].
  apply (obeys_while_state R R_refl R_trans), R_accelerate_body.
Qed.

Lemma through_decelerateMotors n : obeys R (decelerateMotors n).
Proof.
  intros env s. rewrite decelerateMotors_trace, decelerateMotors_final.
  apply (R_trans _ [Log INFO "Motor State: Deccelerating"] s);
    [apply R_plain; reflexivity|].
  apply (obeys_while_state R R_refl R_trans), R_decelerate_body.
Qed.

Lemma through_plain e : is_plain_call e = true -> obeys R (emit e).
Proof. intros P env s. apply R_plain, P. Qed.

Lemma through_dispatch st n : obeys R (dispatch st n).
Proof.
  destruct st; unfold dispatch, yield, servicePropulsion, enterPreOperational.
  - apply (obeys_bind R R_trans);
      [apply R_initMotors | intros _; apply through_plain; reflexivity].
  - apply (obeys_bind R R_trans);
      [apply R_prepareMotors | intros _; apply through_plain; reflexivity].
  - intros env s. apply R_run_cleared.
  - apply through_accelerateMotors.
  - intros env s. apply R_run_cleared.
  - apply through_decelerateMotors.
  - apply (obeys_ret R R_refl).
  - apply (obeys_ret R R_refl).
  - apply R_stopMotors.
  - apply through_plain. reflexivity.
Qed.

Lemma through_run_body n : obeys R (run_body n).
Proof.
  intros env s. rewrite run_body_dispatch, trace_preceded, final_preceded.
  eapply R_trans; [apply R_state_read | apply through_dispatch].
Qed.

Lemma through_run_loop n k : obeys R (run_loop n k).
Proof. apply (obeys_run_loop R R_refl R_trans), through_run_body. Qed.

End Dispatching.

(** ** The critical status stays published *)

Lemma stays_critical_refl s : stays_critical s [] s.
Proof. intro F. split; [exact F | constructor]. Qed.

Lemma stays_critical_trans s1 t1 s2 t2 s3 :
  stays_critical s1 t1 s2 -> stays_critical s2 t2 s3 ->
  stays_critical s1 (t1 ++ t2) s3.
Proof.
  intros H1 H2 F. destruct (H1 F) as [F2 A1]. destruct (H2 F2) as [F3 A2].
  split; [exact F3 | apply Forall_app; split; assumption].
Qed.

Lemma stays_critical_stopMotors n : obeys stays_critical (stopMotors n).
Proof.
  intros env s F. split; [apply failed_after_stop, F|].
  destruct (stop_keeps_stopMotors n env s) as (_ & _ & _ & _ & _ & P).
  destruct F as [_ St]. rewrite St in P. exact P.
Qed.

Lemma stays_critical_turn msg delta n env s :
  stays_critical s (trace (turn msg delta n env s)) (final (turn msg delta n env s)).
Proof.
  intros [F St]. unfold turn.
  destruct (critical_failure (next_state env s)).
  - rewrite trace_after_stop, final_after_stop.
    destruct (stays_critical_stopMotors n env (state_read env s)) as [F' P];
      [split; assumption|].
    split; [exact F' | constructor; [exact I | exact P]].
  - destruct (next_failure env s).
    + rewrite trace_after_stop, final_after_stop.
      destruct (stays_critical_stopMotors n env
                  (failure_flagged (failure_read (state_read env s)))) as [F' P];
        [split; reflexivity|].
      split; [exact F'|]. repeat (constructor; [simpl; auto|]). exact P.
    + split; [split; simpl; assumption|].
      repeat (constructor; [simpl; auto|]). constructor.
Qed.

Lemma stays_critical_in_run_loop n k : obeys stays_critical (run_loop n k).
Proof.
  apply through_run_loop.
  - exact stays_critical_refl.
  - exact stays_critical_trans.
  - intros e s P F. split; [exact F|]. constructor; [|constructor].
    destruct e; try exact I; discriminate.
  - intros env s F. split; [exact F | repeat constructor].
  - intros s F. split.
    + unfold rendezvoused. destruct (nav_calib_ (me s)); exact F.
    + destruct (nav_calib_ (me s)); repeat constructor.
  - intros s F. split; [exact F | constructor].
  - intros env s F. rewrite initMotors_skips; [apply stays_critical_refl, F|].
    destruct F as [F _]. rewrite F. apply andb_false_r.
  - intros env s F. rewrite prepareMotors_skips; [apply stays_critical_refl, F|].
    destruct F as [F _]. rewrite F. apply andb_false_r.
  - exact stays_critical_stopMotors.
  - intros n0 env s. rewrite accelerate_body_turn. apply stays_critical_turn.
  - intros n0 env s. rewrite decelerate_body_turn. apply stays_critical_turn.
Qed.

(** X15: from the moment [motor_failure_] is set with module status
    [kCriticalFailure] in [motor_data_] (as [updateMotorFailure] leaves
    them), every motor-data snapshot the worker writes to the registry
    carries [kCriticalFailure], and the worker stays in that condition,
    however long [run] goes on. *)
Theorem critical_status_stays_published n k env s :
  failed s ->
  failed (final (run_loop n k env s))
  /\ Forall (publishes_status ModuleStatus.kCriticalFailure)
            (trace (run_loop n k env s)).
Proof. exact (stays_critical_in_run_loop n k env s). Qed.

Lemma critical_status_stays_published_example :
  failed (final (run_loop 3 5 Samples.launching Samples.failed_worker))
  /\ Forall (publishes_status ModuleStatus.kCriticalFailure)
            (trace (run_loop 3 5 Samples.launching Samples.failed_worker)).
Proof.
  apply (critical_status_stays_published 3 5 Samples.launching Samples.failed_worker).
  split; reflexivity.
Defined.

(** ** Target velocities are 32-bit values *)

Lemma int32_fits x : fits_int32 (int32 x).
Proof.
  unfold fits_int32, INT32_MIN, INT32_MAX, int32, wrap.
  change (2 ^ (32 - 1)) with 2147483648. change (2 ^ 32) with 4294967296.
  change (2 ^ 31) with 2147483648.
  pose proof (Z.mod_pos_bound (x + 2147483648) 4294967296 ltac:(lia)). lia.
Qed.

Lemma plain_sends_nothing e : is_plain_call e = true -> sent_velocities [e] = [].
Proof. destruct e; try reflexivity; discriminate. Qed.

Lemma stays_int32_refl s : stays_int32 s [] s.
Proof. intro T. split; [exact T | constructor]. Qed.

Lemma stays_int32_trans s1 t1 s2 t2 s3 :
  stays_int32 s1 t1 s2 -> stays_int32 s2 t2 s3 -> stays_int32 s1 (t1 ++ t2) s3.
Proof.
  intros H1 H2 T. destruct (H1 T) as [T2 A1]. destruct (H2 T2) as [T3 A2].
  split; [exact T3|]. rewrite sent_velocities_app. apply Forall_app. split; assumption.
Qed.

Ltac stays_int32_step :=
  intros ?env ?s ?T; split; [assumption | constructor].

Lemma stays_int32_stopMotors n : obeys stays_int32 (stopMotors n).
Proof.
  intros env s T. split.
  - destruct (stop_keeps_stopMotors n env s) as ((_ & V & _) & _).
    unfold target_in_range in *. rewrite V. exact T.
  - rewrite (stop_calls_sent_velocities _ (stopMotors_calls n env s)). constructor.
Qed.

Ltac stays_int32_walk :=
  walk stays_int32_refl stays_int32_trans ltac:(apply stays_int32_stopMotors)
       stays_int32_step.

Lemma stays_int32_initMotors : obeys stays_int32 initMotors.
Proof. unfold_methods. stays_int32_walk. Qed.

Lemma stays_int32_prepareMotors : obeys stays_int32 prepareMotors.
Proof. unfold_methods. stays_int32_walk. Qed.

Lemma stays_int32_constructor : obeys stays_int32 constructor.
Proof. unfold_methods. stays_int32_walk. Qed.

Lemma stays_int32_turn msg delta n env s :
  stays_int32 s (trace (turn msg delta n env s)) (final (turn msg delta n env s)).
Proof.
  intro T. unfold turn.
  destruct (critical_failure (next_state env s)).
  - rewrite trace_after_stop, final_after_stop.
    destruct (stays_int32_stopMotors n env (state_read env s) T) as [T' P].
    split; [exact T' | exact P].
  - destruct (next_failure env s).
    + rewrite trace_after_stop, final_after_stop.
      destruct (stays_int32_stopMotors n env
                  (failure_flagged (failure_read (state_read env s))) T) as [T' P].
      split; [exact T' | exact P].
    + split.
      * unfold target_in_range. cbn -[INT32_MIN INT32_MAX]. apply int32_fits.
      * cbn [trace drive_events sent_velocities refresh_events].
        constructor; [apply int32_fits | constructor].
Qed.

Lemma stays_int32_in_run_loop n k : obeys stays_int32 (run_loop n k).
Proof.
  apply through_run_loop.
  - exact stays_int32_refl.
  - exact stays_int32_trans.
  - intros e s P T. split; [exact T|]. rewrite (plain_sends_nothing e P). constructor.
  - intros env s T. split; [exact T | constructor].
  - intros s T. split.
    + unfold rendezvoused. destruct (nav_calib_ (me s)); exact T.
    + destruct (nav_calib_ (me s)); constructor.
  - intros s T. split; [exact T | constructor].
  - exact stays_int32_initMotors.
  - exact stays_int32_prepareMotors.
  - exact stays_int32_stopMotors.
  - intros n0 env s. rewrite accelerate_body_turn. apply stays_int32_turn.
  - intros n0 env s. rewrite decelerate_body_turn. apply stays_int32_turn.
Qed.

(** In a whole life of the worker, from the constructor on, every
    target velocity sent to the controllers is a value of [int32_t], and so
    is the stored target at the end, whatever the registry and the
    controllers answer. *)
Theorem setpoints_fit_int32 n env :
  Forall fits_int32 (sent_velocities (trace (lifetime n env blank)))
  /\ target_in_range (final (lifetime n env blank)).
Proof.
  assert (L : obeys stays_int32 (lifetime n)).
  { unfold lifetime, run, log.
    apply (obeys_bind _ stays_int32_trans); [apply stays_int32_constructor | intros _].
    apply (obeys_bind _ stays_int32_trans); [stays_int32_step | intros _].
    apply stays_int32_in_run_loop. }
  destruct (L env blank) as [T P].
  - unfold target_in_range, INT32_MIN, INT32_MAX. simpl. lia.
  - split; assumption.
Qed.


(** ** What [stopMotors] leaves alone *)

(** X16: [stopMotors] only talks to the controllers and publishes: its
    calls are quick-stop, log lines, requests of actual velocity and
    torque, publications of motor data and the command to pre-operational.
    It leaves the state snapshot, both target setpoints, [run_] and the
    latches [nav_calib_], [motors_init_], [motors_ready_] and
    [motor_failure_] as they were, never clears [all_motors_stopped_],
    consumes no state-machine, navigation or failure answer, and publishes
    the module status unchanged; all this also when it does not return. *)
Theorem stopMotors_leaves_alone n env s :
  Forall (fun e => is_stop_call e = true) (trace (stopMotors n env s))
  /\ undisturbed (me s) (me (final (stopMotors n env s)))
  /\ (all_motors_stopped_ (me s) = true ->
      all_motors_stopped_ (me (final (stopMotors n env s))) = true)
  /\ n_state (reads (final (stopMotors n env s))) = n_state (reads s)
  /\ n_nav (reads (final (stopMotors n env s))) = n_nav (reads s)
  /\ n_failure (reads (final (stopMotors n env s))) = n_failure (reads s)
  /\ Forall (publishes_status (Motors.module_status (motor_data_ (me s))))
            (trace (stopMotors n env s)).
Proof.
  split; [apply stopMotors_calls|]. exact (stop_keeps_stopMotors n env s).
Qed.

(** ** Leaving the accelerating loop *)

(** X17: the test of the accelerating loop uses the state read in the turn
    before.  So when the registry hands out a state other than Accelerating
    (with no critical failure, and the health check passing), the turn that
    reads it still raises the target and sends both setpoints; only then
    does the loop end, with the new state in [state_]. *)
Theorem state_change_ends_loop_after_the_turn n k env s :
  current_state (state_ (me s)) = State.kAccelerating ->
  current_state (next_state env s) <> State.kAccelerating ->
  critical_failure (next_state env s) = false ->
  next_failure env s = false ->
  while_state State.kAccelerating (accelerate_body n) (S k) env s
  = Done tt
      (stepped (int32 (target_velocity_ (me s) + 100)) env
               (failure_read (state_read env s)))
      (GetStateMachineData (next_state env s) :: HealthCheck :: GetFailure false
       :: drive_events "Motor State: Accelerating"
            (int32 (target_velocity_ (me s) + 100)) env s)
  /\ state_ (me (stepped (int32 (target_velocity_ (me s) + 100)) env
                         (failure_read (state_read env s))))
     = next_state env s.
Proof.
  intros A N C F. split; [|reflexivity].
  rewrite while_state_unfold, A. cbn [State.eqb].
  rewrite accelerate_body_turn. unfold turn. rewrite C, F.
  rewrite while_state_unfold.
  assert (E : State.eqb
                (current_state
                   (state_ (me (stepped (int32 (target_velocity_ (me s) + 100)) env
                                        (failure_read (state_read env s))))))
                State.kAccelerating = false).
  { change (state_ (me (stepped _ _ _))) with (next_state env s).
    destruct (current_state (next_state env s)); try reflexivity.
    exfalso. apply N. reflexivity. }
  rewrite E, app_nil_r. reflexivity.
Qed.

Lemma state_change_ends_loop_after_the_turn_example :
  while_state State.kAccelerating (accelerate_body 2) 3 Samples.cruise_reached
              (state_read Samples.launching blank)
  = Done tt
      (stepped (int32 (target_velocity_ (me (state_read Samples.launching blank)) + 100))
               Samples.cruise_reached
               (failure_read (state_read Samples.cruise_reached
                                         (state_read Samples.launching blank))))
      (GetStateMachineData
         (next_state Samples.cruise_reached (state_read Samples.launching blank))
       :: HealthCheck :: GetFailure false
       :: drive_events "Motor State: Accelerating"
            (int32 (target_velocity_ (me (state_read Samples.launching blank)) + 100))
            Samples.cruise_reached (state_read Samples.launching blank))
  /\ state_ (me (stepped
                   (int32 (target_velocity_ (me (state_read Samples.launching blank)) + 100))
                   Samples.cruise_reached
                   (failure_read (state_read Samples.cruise_reached
                                             (state_read Samples.launching blank)))))
     = next_state Samples.cruise_reached (state_read Samples.launching blank).
Proof.
  apply (state_change_ends_loop_after_the_turn 2 2 Samples.cruise_reached
           (state_read Samples.launching blank)).
  - reflexivity.
  - simpl. discriminate.
  - reflexivity.
  - reflexivity.
Defined.

End MotorTurns.

(* ====================================================================== *)
(** * The post-calibration barrier: who waits, when, and how often *)
(* ====================================================================== *)

Module RendezvousFacts.
Import MotorControl MotorSpec MotorStates Rendezvous MotorFacts MotorTurns.
Local Open Scope motor_scope.

(** ** The worker's side *)

Lemma barrier_account_refl s : barrier_account s [] s.
Proof. reflexivity. Qed.

Lemma barrier_account_trans s1 t1 s2 t2 s3 :
  barrier_account s1 t1 s2 -> barrier_account s2 t2 s3 ->
  barrier_account s1 (t1 ++ t2) s3.
Proof.
  unfold barrier_account. intros H1 H2. rewrite filter_app, length_app. lia.
Qed.

Lemma barrier_account_emit e : e <> BarrierWait -> obeys barrier_account (emit e).
Proof.
  intros He env s. unfold barrier_account. simpl.
  rewrite (not_a_wait e He). reflexivity.
Qed.

Lemma barrier_account_modify f :
  (forall m, nav_calib_ (f m) = nav_calib_ m) -> obeys barrier_account (modify f).
Proof.
  intros Hf env s. unfold barrier_account, waits_left. simpl. rewrite Hf. reflexivity.
Qed.

Lemma barrier_account_rendezvous s :
  nav_calib_ (me s) = false -> barrier_account s [BarrierWait] (rendezvoused s).
Proof.
  intro C. unfold barrier_account, waits_left, rendezvoused. rewrite C. reflexivity.
Qed.

Ltac account_of_a_read := intros env s; reflexivity.

Lemma barrier_account_in_turn n : obeys barrier_account (accelerate_body n).
Proof.
  apply obeys_accelerate_body;
    first [ exact barrier_account_refl | exact barrier_account_trans
          | exact barrier_account_emit
          | intros f Hf _; exact (barrier_account_modify f Hf)
          | account_of_a_read ].
Qed.

Lemma barrier_account_in_run_loop n k : obeys barrier_account (run_loop n k).
Proof.
  apply obeys_run_loop; [exact barrier_account_refl | exact barrier_account_trans|].
  apply obeys_run_body;
    first [ exact barrier_account_refl | exact barrier_account_trans
          | exact barrier_account_emit
          | intros f Hf _; exact (barrier_account_modify f Hf)
          | exact barrier_account_rendezvous
          | account_of_a_read ].
Qed.

(** With nothing left to pay with, no wait was made and the latch is set. *)
Lemma latch_pays_once s t s' :
  barrier_account s t s' -> waits_left s = 0%nat ->
  ~ In BarrierWait t /\ nav_calib_ (me s') = true.
Proof.
  unfold barrier_account. intros W Z0. rewrite Z0 in W. split.
  - intro H.
    assert (In BarrierWait (filter is_BarrierWait t)) as I.
    { apply filter_In. split; [exact H | reflexivity]. }
    destruct (filter is_BarrierWait t); [contradiction | simpl in W; lia].
  - unfold waits_left in W.
    destruct (nav_calib_ (me s')); [reflexivity | lia].
Qed.

Lemma barrier_account_in_lifetime n : obeys barrier_account (lifetime n).
Proof.
  apply obeys_lifetime;
    first [ exact barrier_account_refl | exact barrier_account_trans
          | exact barrier_account_emit
          | intros f Hf _; exact (barrier_account_modify f Hf)
          | exact barrier_account_rendezvous
          | account_of_a_read ].
Qed.

(** The accelerating handler after its rendezvous. *)
Lemma acceleration_after_rendezvous n env s :
  ~ In BarrierWait
      (trace (while_state State.kAccelerating (accelerate_body n) n env (rendezvoused s)))
  /\ nav_calib_ (me (final (while_state State.kAccelerating (accelerate_body n) n env
                                        (rendezvoused s)))) = true.
Proof.
  apply (latch_pays_once (rendezvoused s)).
  - exact (obeys_while_state barrier_account barrier_account_refl
             barrier_account_trans State.kAccelerating (accelerate_body n) n
             (barrier_account_in_turn n) env (rendezvoused s)).
  - unfold waits_left, rendezvoused. destruct (nav_calib_ (me s)) eqn:C;
      [rewrite C|]; reflexivity.
Qed.

Lemma without_rendezvous_refl s : without_rendezvous s [] s.
Proof. split; [intros [] | reflexivity]. Qed.

Lemma without_rendezvous_trans s1 t1 s2 t2 s3 :
  without_rendezvous s1 t1 s2 -> without_rendezvous s2 t2 s3 ->
  without_rendezvous s1 (t1 ++ t2) s3.
Proof.
  intros [N1 L1] [N2 L2]. split; [|congruence].
  intro I. apply in_app_or in I. tauto.
Qed.

Lemma without_rendezvous_emit e : e <> BarrierWait -> obeys without_rendezvous (emit e).
Proof.
  intros He env s. split; [|reflexivity].
  intros [I|[]]. apply He. exact I.
Qed.

Lemma without_rendezvous_modify f :
  (forall m, nav_calib_ (f m) = nav_calib_ m) -> obeys without_rendezvous (modify f).
Proof. intros Hf env s. split; [intros [] | apply Hf]. Qed.

Ltac no_rendezvous_in_a_read :=
  intros env s; split; [intros [I|[]]; discriminate I | reflexivity].

Ltac without_rendezvous_steps :=
  first [ exact without_rendezvous_refl | exact without_rendezvous_trans
        | exact without_rendezvous_emit
        | intros f Hf _; exact (without_rendezvous_modify f Hf)
        | no_rendezvous_in_a_read ].

Lemma without_rendezvous_dispatch st n :
  st <> State.kAccelerating -> obeys without_rendezvous (dispatch st n).
Proof.
  intro A. destruct st; try contradiction;
    unfold dispatch, yield, servicePropulsion, enterPreOperational.
  - apply (obeys_bind _ without_rendezvous_trans);
      [apply obeys_initMotors; without_rendezvous_steps
      | intros _; apply without_rendezvous_emit; discriminate].
  - apply (obeys_bind _ without_rendezvous_trans);
      [apply obeys_prepareMotors; without_rendezvous_steps
      | intros _; apply without_rendezvous_emit; discriminate].
  - apply without_rendezvous_modify. reflexivity.
  - apply without_rendezvous_modify. reflexivity.
  - apply obeys_decelerateMotors; without_rendezvous_steps.
  - apply (obeys_ret _ without_rendezvous_refl).
  - apply (obeys_ret _ without_rendezvous_refl).
  - apply obeys_stopMotors; without_rendezvous_steps.
  - apply without_rendezvous_emit. discriminate.
Qed.

(** ** Navigation's side *)

(** All that a run of the navigation thread does at the barrier: nothing,
    or the transition followed by the wait, the latter exactly when the run
    took the module to operational. *)
Lemma operational_for_good steps :
  fst (navigation_run steps kOperational) = kOperational.
Proof.
  induction steps as [|c steps IH]; [reflexivity|].
  destruct c; cbn [navigation_run navigation_step finishCalibration];
    destruct (navigation_run steps kOperational); exact IH.
Qed.

Lemma navigation_run_calls steps : forall st,
  snd (navigation_run steps st)
  = match st, fst (navigation_run steps st) with
    | kOperational, _ => []
    | _, kOperational => [Operational; NavigationBarrierWait]
    | _, _ => []
    end.
Proof.
  induction steps as [|c steps IH]; intro st; cbn [navigation_run].
  - destruct st; reflexivity.
  - destruct c, st; cbn [navigation_step finishCalibration];
      match goal with |- context [navigation_run steps ?x] =>
        specialize (IH x); pose proof (operational_for_good steps) as O;
        destruct (navigation_run steps x) as [st2 t2] end;
      cbn [fst snd app] in *; rewrite IH; try rewrite O; destruct st2; reflexivity.
Qed.

Lemma navigation_run_shape steps st :
  snd (navigation_run steps st) = []
  \/ snd (navigation_run steps st) = [Operational; NavigationBarrierWait].
Proof.
  rewrite navigation_run_calls.
  destruct st;
    [ destruct (fst (navigation_run steps kCalibrating))
    | destruct (fst (navigation_run steps kReady)) | ];
    first [left; reflexivity | right; reflexivity].
Qed.

(** ** Both threads *)

Lemma motors_part_app g1 g2 : motors_part (g1 ++ g2) = motors_part g1 ++ motors_part g2.
Proof.
  induction g1 as [|[e|e] g1 IH]; cbn [app motors_part]; rewrite ?IH; reflexivity.
Qed.

Lemma navigation_part_app g1 g2 :
  navigation_part (g1 ++ g2) = navigation_part g1 ++ navigation_part g2.
Proof.
  induction g1 as [|[e|e] g1 IH]; cbn [app navigation_part]; rewrite ?IH; reflexivity.
Qed.

Lemma navigation_part_In e g : In e (navigation_part g) -> In (ByNavigation e) g.
Proof.
  induction g as [|[x|x] g IH]; cbn [navigation_part]; intro I.
  - contradiction.
  - right. apply IH, I.
  - destruct I as [<-|I]; [left; reflexivity | right; apply IH, I].
Qed.

(** A call the worker makes after its wait comes after navigation's. *)
Lemma held_at_the_barrier before : forall mw nw e after,
  respects_barrier mw nw (before ++ ByMotors e :: after) = true ->
  mw = true \/ In BarrierWait (motors_part before) ->
  nw = true \/ In NavigationBarrierWait (navigation_part before).
Proof.
  induction before as [|[x|x] before IH]; intros mw nw e after R W;
    cbn [app respects_barrier motors_part navigation_part] in *;
    apply andb_true_iff in R; destruct R as [G R].
  - destruct W as [->|[]]. left. exact G.
  - apply (IH _ _ _ _ R).
    destruct W as [->|[->|W]];
      [left; reflexivity | left; cbn [is_BarrierWait]; apply orb_true_r
      | right; exact W].
  - destruct (IH _ _ _ _ R W) as [H|H]; [|right; right; exact H].
    apply orb_true_iff in H. destruct H as [H|H]; [left; exact H|].
    right. left. destruct x; [discriminate | reflexivity].
Qed.

(** Once navigation has waited, it has become operational. *)
Lemma waited_so_operational steps st g1 g2 :
  navigation_part (g1 ++ g2) = snd (navigation_run steps st) ->
  In NavigationBarrierWait (navigation_part g1) ->
  In (ByNavigation Operational) g1.
Proof.
  rewrite navigation_part_app. intros E W. apply navigation_part_In.
  destruct (navigation_run_shape steps st) as [S|S]; rewrite S in E.
  - destruct (navigation_part g1); [contradiction | discriminate].
  - destruct (navigation_part g1) as [|a [|b l]]; cbn [app] in E.
    + contradiction.
    + injection E as -> _. destruct W as [W|[]]. discriminate.
    + injection E as -> _. left. reflexivity.
Qed.


(** ** The claim and what holds instead *)

(** C3, the claim at a concrete run: the pod is in emergency braking with a
    critical failure from the start, so the worker stops the motors and
    never enters the accelerating handler.  In its whole life it does not
    wait on the barrier, although the claim has it wait exactly once; and
    with navigation calibrated and finished the barrier is hit once, not
    twice. *)
Lemma no_rendezvous_without_acceleration :
  ~ (spec_waits_once_first (trace (lifetime 4 Samples.spinning_down blank))
     /\ spec_hit_twice (trace (lifetime 4 Samples.spinning_down blank))
                       (snd (navigation_run [Calibrated; FinishCalibration]
                                            kCalibrating))).
Proof.
  intros [[C _] _].
  assert (Z0 : List.length
                 (filter is_BarrierWait (trace (lifetime 4 Samples.spinning_down blank)))
               = 0%nat) by (vm_compute; reflexivity).
  rewrite Z0 in C. discriminate C.
Qed.

(** A worker that finds the pod decelerating sends target velocities
    without having waited on the barrier. *)
Lemma setpoints_without_rendezvous :
  existsb is_setpoint (trace (lifetime 2 Samples.cruise_reached blank)) = true
  /\ existsb is_BarrierWait (trace (lifetime 2 Samples.cruise_reached blank)) = false.
Proof. split; vm_compute; reflexivity. Qed.

(** C3 (amended): in a whole life the worker waits on the barrier at most
    once, and exactly once when [nav_calib_] is set at the end; once the
    latch is set no wait follows and the latch stays.  The accelerating
    handler is where it happens: entered with the latch unset it waits as
    its very first call, before anything it sends, and leaves the latch
    set; entered with the latch set it does not wait; the handler of every
    other state neither waits nor touches the latch.  Navigation, as its
    header documents [finishCalibration], waits at most once, right after
    it has become operational.  So the barrier is hit at most twice, and in
    any order of the two threads' calls that the barrier allows, every
    target velocity or torque of the worker's first acceleration is sent
    after navigation became operational. *)
Theorem rendezvous_on_first_acceleration :
  (forall n env,
      List.length (filter is_BarrierWait (trace (lifetime n env blank)))
      = if nav_calib_ (me (final (lifetime n env blank))) then 1%nat else 0%nat)
  /\ (forall n k env s,
        nav_calib_ (me s) = true ->
        ~ In BarrierWait (trace (run_loop n k env s))
        /\ nav_calib_ (me (final (run_loop n k env s))) = true)
  /\ (forall n env s,
        exists rest,
          trace (accelerateMotors n env s)
          = (if nav_calib_ (me s) then [] else [BarrierWait]) ++ rest
          /\ ~ In BarrierWait rest
          /\ nav_calib_ (me (final (accelerateMotors n env s))) = true)
  /\ (forall st n env s,
        st <> State.kAccelerating ->
        ~ In BarrierWait (trace (dispatch st n env s))
        /\ nav_calib_ (me (final (dispatch st n env s))) = nav_calib_ (me s))
  /\ (forall steps st,
        (List.length (filter is_NavigationBarrierWait (snd (navigation_run steps st)))
         <= 1)%nat
        /\ forall before after,
             snd (navigation_run steps st) = before ++ NavigationBarrierWait :: after ->
             before = [Operational]
             /\ fst (navigation_run steps st) = kOperational)
  /\ (forall n env s steps st g,
        nav_calib_ (me s) = false ->
        motors_part g = trace (accelerateMotors n env s) ->
        navigation_part g = snd (navigation_run steps st) ->
        respects_barrier false false g = true ->
        forall before e after,
          g = before ++ ByMotors e :: after ->
          is_setpoint e = true ->
          In (ByNavigation Operational) before).
Proof.
  split; [|split; [|split; [|split; [|split]]]].
  - intros n env.
    pose proof (barrier_account_in_lifetime n env blank) as H.
    unfold barrier_account in H. change (waits_left blank) with 1%nat in H.
    unfold waits_left in H.
    destruct (nav_calib_ (me (final (lifetime n env blank)))); lia.
  - intros n k env s L. apply (latch_pays_once _ _ _ (barrier_account_in_run_loop n k env s)).
    unfold waits_left. rewrite L. reflexivity.
  - intros n env s.
    destruct (acceleration_after_rendezvous n env s) as [N L].
    eexists. split; [apply accelerateMotors_trace|].
    split; [intros [H|H]; [discriminate | exact (N H)]|].
    rewrite accelerateMotors_final. exact L.
  - intros st n env s A. exact (without_rendezvous_dispatch st n A env s).
  - intros steps st.
    pose proof (navigation_run_calls steps st) as C.
    destruct (navigation_run_shape steps st) as [S|S]; rewrite S; split;
      try (cbn; lia); intros before after E.
    + destruct before; discriminate.
    + destruct before as [|a [|b before]]; [discriminate | | ].
      * injection E as -> _. split; [reflexivity|].
        rewrite S in C.
        destruct st;
          [ destruct (fst (navigation_run steps kCalibrating))
          | destruct (fst (navigation_run steps kReady)) | ];
          first [discriminate C | reflexivity].
      * injection E as _ _ E. destruct before; discriminate.
  - intros n env s steps st g L M N R before e after -> P.
    rewrite motors_part_app in M. rewrite accelerateMotors_trace, L in M.
    cbn [motors_part app] in M.
    assert (W : In BarrierWait (motors_part before)).
    { destruct (motors_part before) as [|x l]; cbn [app] in M.
      - injection M as -> _. discriminate.
      - injection M as -> _. left. reflexivity. }
    destruct (held_at_the_barrier before false false e after R (or_intror W))
      as [F|F]; [discriminate|].
    exact (waited_so_operational steps st before (ByMotors e :: after) N F).
Qed.

Lemma rendezvous_on_first_acceleration_example :
  List.length (filter is_BarrierWait (trace (lifetime 3 Samples.launching blank)))
  = 1%nat
  /\ In (ByNavigation Operational) (firstn 9 Samples.meeting).
Proof.
  destruct rendezvous_on_first_acceleration as (Once & _ & _ & _ & _ & Held).
  split.
  - rewrite (Once 3%nat Samples.launching). vm_compute. reflexivity.
  - apply (Held 1%nat Samples.launching Samples.first_launch
             [Calibrated; FinishCalibration] kCalibrating Samples.meeting)
      with (e := SendTargetVelocity 100) (after := skipn 10 Samples.meeting);
      vm_compute; reflexivity.
Defined.

End RendezvousFacts.
